(** * The step controller of the grid-world agent (src/controller.py)

    A shallow embedding of [controller.py]: the coin collector
    [_collect_coins], and the class [Controller] with its methods [step],
    [_walk], [_handle_collision], [_handle_bounding_collision] and
    [_handle_corner_collision].

    Modelling conventions.
    - Python [float] values are idealised as real numbers [R]: rounding
      error is not modelled, so a statement "up to floating-point tolerance"
      is read as exact.  Python [int] values are [Z]; an [int] meeting a
      [float] in an operation is injected with [IZR].
    - Where a property turns on what rounding decides (a coin at the
      collection threshold, the agent on a corner of a cell) the code is
      embedded once more on IEEE 754 binary64 floats, in the module
      [Binary64], and the property is stated there.
    - The controller mutates [self._level] in place.  Every method is a
      computation in a state-and-exception monad over the record
      [Controller]; a raised exception keeps the mutations done so far, as
      in Python.
    - [round] is Python 3's: to the nearest integer, ties to the even one. *)

From Stdlib Require Import Reals Lra Lia ZArith List Bool.
From Stdlib Require PrimFloat FloatOps SpecFloat FloatAxioms Uint63.
From Equations Require Import Equations.
Import ListNotations.

Open Scope R_scope.

(** ** Numbers *)

Definition Rltb (a b : R) : bool := if Rlt_dec a b then true else false.
Definition Rleb (a b : R) : bool := if Rle_dec a b then true else false.
Definition Rgtb (a b : R) : bool := Rltb b a.
Definition Rneqb (a b : R) : bool := if Req_dec_T a b then false else true.

(** Python 3 [round(x)] on a float: the nearest integer, a tie going to the
    even neighbour. *)
Definition py_round (x : R) : Z :=
  let f := Int_part x in
  let r := frac_part x in
  if Rlt_dec r (1 / 2) then f
  else if Rlt_dec (1 / 2) r then (f + 1)%Z
  else if Z.even f then f else (f + 1)%Z.

(** ** The coin collector *)

(** [del coins[i]] for an index within range. *)
Definition list_del {A} (l : list A) (i : nat) : list A :=
  firstn i l ++ skipn (S i) l.

Definition coin_dist2 (agent_x agent_y : R) (coin : R * R) : R :=
  let cx := fst coin in
  let cy := snd coin in
  let vx := cx - agent_x in
  let vy := cy - agent_y in
  vx * vx + vy * vy.

(** The [while i < len(coins)] loop, started at index [i]. *)
Equations? collect_loop (threshold2 agent_x agent_y : R)
    (coins : list (R * R)) (i : nat) : list (R * R)
    by wf (length coins - i)%nat lt :=
  collect_loop threshold2 agent_x agent_y coins i
    with le_lt_dec (length coins) i => {
    | left _ := coins
    | right Hi with Rlt_dec (coin_dist2 agent_x agent_y (nth i coins (0, 0))) threshold2 => {
      | left _ := collect_loop threshold2 agent_x agent_y (list_del coins i) (S i)
      | right _ := collect_loop threshold2 agent_x agent_y coins (S i) } }.
Proof.
  - unfold list_del. rewrite length_app, length_firstn, length_skipn. lia.
  - lia.
Qed.

Definition _collect_coins (coins : list (R * R))
    (coin_radius agent_x agent_y agent_radius : R) : list (R * R) :=
  let threshold := agent_radius + coin_radius in
  let threshold2 := threshold * threshold in
  collect_loop threshold2 agent_x agent_y coins 0.

(** ** The level and the controller *)

Record Agent := mkAgent {
  coord : R * R;
  theta : R
}.

Record Level := mkLevel {
  grid : list (list Z);
  agent : Agent;
  coins : list (R * R)
}.

Record Controller := mkController {
  _level : Level;
  _grid_shape : Z * Z;
  _stride : R;
  _stride_on_turn : R;
  _turn : R;
  _agent_radius : R;
  _coin_radius : R
}.

(** [np.array(level.grid).shape] of a rectangular grid: (rows, columns). *)
Definition shape (g : list (list Z)) : Z * Z :=
  (Z.of_nat (length g), Z.of_nat (length (hd [] g))).

(** [Controller.__init__], the command-line arguments given one by one. *)
Definition __init__ (agent_stride agent_stride_on_turn agent_turn
    agent_radius coin_radius : R) (level : Level) : Controller :=
  {| _level := level;
     _grid_shape := shape (grid level);
     _stride := agent_stride;
     _stride_on_turn := agent_stride_on_turn;
     _turn := agent_turn;
     _agent_radius := agent_radius;
     _coin_radius := coin_radius |}.

(** Updates of the mutable part of the level. *)
Definition set_agent (a : Agent) (self : Controller) : Controller :=
  {| _level := {| grid := grid (_level self); agent := a;
                  coins := coins (_level self) |};
     _grid_shape := _grid_shape self;
     _stride := _stride self;
     _stride_on_turn := _stride_on_turn self;
     _turn := _turn self;
     _agent_radius := _agent_radius self;
     _coin_radius := _coin_radius self |}.

Definition set_coord (xy : R * R) (self : Controller) : Controller :=
  set_agent {| coord := xy; theta := theta (agent (_level self)) |} self.

Definition set_theta (t : R) (self : Controller) : Controller :=
  set_agent {| coord := coord (agent (_level self)); theta := t |} self.

Definition set_coins (cs : list (R * R)) (self : Controller) : Controller :=
  {| _level := {| grid := grid (_level self); agent := agent (_level self);
                  coins := cs |};
     _grid_shape := _grid_shape self;
     _stride := _stride self;
     _stride_on_turn := _stride_on_turn self;
     _turn := _turn self;
     _agent_radius := _agent_radius self;
     _coin_radius := _coin_radius self |}.

(** ** The monad of the methods: state [Controller], exceptions *)

Inductive exn := ZeroDivisionError | IndexError.

Inductive outcome (A : Type) :=
| Return (a : A)
| Raise (e : exn).
Arguments Return {A} a.
Arguments Raise {A} e.

Definition M (A : Type) : Type := Controller -> outcome A * Controller.

Definition ret {A} (a : A) : M A := fun self => (Return a, self).

Definition raise {A} (e : exn) : M A := fun self => (Raise e, self).

Definition bind {A B} (m : M A) (k : A -> M B) : M B :=
  fun self =>
    match m self with
    | (Return a, self') => k a self'
    | (Raise e, self') => (Raise e, self')
    end.

Definition gets {A} (f : Controller -> A) : M A := fun self => (Return (f self), self).

Definition modify (f : Controller -> Controller) : M unit :=
  fun self => (Return tt, f self).

Declare Scope py_scope.
Delimit Scope py_scope with py.
Notation "x <- m ;; k" := (bind m (fun x => k))
  (at level 61, m at next level, right associativity) : py_scope.
Notation "m ;;; k" := (bind m (fun _ => k))
  (at level 61, right associativity) : py_scope.
Open Scope py_scope.

(** What a method hands back: [None] after a bare [return], or a bool. *)
Inductive pyret := PyNone | PyBool (b : bool).

Definition truthy (r : pyret) : bool :=
  match r with PyNone => false | PyBool b => b end.

(** [l[i]] with Python's negative indices; [None] stands for IndexError. *)
Definition py_index {A} (l : list A) (i : Z) : option A :=
  let n := Z.of_nat (length l) in
  if (i <? 0)%Z
  then (if (i + n <? 0)%Z then None else nth_error l (Z.to_nat (i + n)))
  else nth_error l (Z.to_nat i).

(** [grid[r][c]]. *)
Definition grid_at (g : list (list Z)) (r c : Z) : M Z :=
  match py_index g r with
  | None => raise IndexError
  | Some row =>
      match py_index row c with
      | None => raise IndexError
      | Some v => ret v
      end
  end.

(** ** Collision resolution *)

(** The early exits shared by the two per-cell checks: the cell out of
    bounds, or open.  [grid_shape] is (rows, columns) and the grid's rows
    run downwards, hence the flip. *)
Definition out_of_bounds (grid_shape : Z * Z) (cx cy : Z) : bool :=
  (cx <? 0)%Z || (cy <? 0)%Z || (cx >=? snd grid_shape)%Z || (cy >=? fst grid_shape)%Z.

Definition _handle_bounding_collision (cell_coord : Z * Z) : M pyret :=
  grid_shape <- gets _grid_shape ;;
  grid <- gets (fun self => grid (_level self)) ;;
  let cx := fst cell_coord in
  let cy := snd cell_coord in
  if out_of_bounds grid_shape cx cy then ret PyNone else
  let cy_flip := (fst grid_shape - cy - 1)%Z in
  cell <- grid_at grid cy_flip cx ;;
  if (cell =? 0)%Z then ret PyNone else
  let cx0 := cx in let cx1 := (cx + 1)%Z in
  let cy0 := cy in let cy1 := (cy + 1)%Z in
  let ccx := IZR (cx0 + cx1) / 2 in
  let ccy := IZR (cy0 + cy1) / 2 in
  ax <- gets (fun self => fst (coord (agent (_level self)))) ;;
  ay <- gets (fun self => snd (coord (agent (_level self)))) ;;
  ar <- gets _agent_radius ;;
  let new_x := ax in
  let new_y := ay in
  let new_y :=
    if Rleb (IZR cx0) ax && Rleb ax (IZR cx1) then
      if Rgtb ay ccy && Rltb (ay - IZR cy1) ar then IZR cy1 + ar
      else if Rltb ay ccy && Rltb (IZR cy0 - ay) ar then IZR cy0 - ar
      else new_y
    else new_y in
  let new_x :=
    if Rleb (IZR cy0) ay && Rleb ay (IZR cy1) then
      if Rgtb ax ccx && Rltb (ax - IZR cx1) ar then IZR cx1 + ar
      else if Rltb ax ccx && Rltb (IZR cx0 - ax) ar then IZR cx0 - ar
      else new_x
    else new_x in
  modify (set_coord (new_x, new_y)) ;;;
  ret (PyBool (Rneqb ax new_x || Rneqb ay new_y)).

Definition _handle_corner_collision (cell_coord : Z * Z) : M pyret :=
  grid_shape <- gets _grid_shape ;;
  grid <- gets (fun self => grid (_level self)) ;;
  let cx := fst cell_coord in
  let cy := snd cell_coord in
  if out_of_bounds grid_shape cx cy then ret PyNone else
  let cy_flip := (fst grid_shape - cy - 1)%Z in
  cell <- grid_at grid cy_flip cx ;;
  if (cell =? 0)%Z then ret PyNone else
  let cx0 := cx in let cx1 := (cx + 1)%Z in
  let cy0 := cy in let cy1 := (cy + 1)%Z in
  let ccx := IZR (cx0 + cx1) / 2 in
  let ccy := IZR (cy0 + cy1) / 2 in
  ax <- gets (fun self => fst (coord (agent (_level self)))) ;;
  ay <- gets (fun self => snd (coord (agent (_level self)))) ;;
  ar <- gets _agent_radius ;;
  let ar2 := ar * ar in
  let ncx := if Rleb ax ccx then cx0 else cx1 in
  let ncy := if Rleb ay ccy then cy0 else cy1 in
  let vx := ax - IZR ncx in
  let vy := ay - IZR ncy in
  let dist2 := vx * vx + vy * vy in
  new_xy <-
    (if Rltb dist2 ar2 then
       let dist := sqrt dist2 in
       (* [vx * ar / dist]: a float division by zero raises *)
       if Rneqb dist 0
       then ret (IZR ncx + vx * ar / dist, IZR ncy + vy * ar / dist)
       else raise ZeroDivisionError
     else ret (ax, ay)) ;;
  modify (set_coord new_xy) ;;;
  ret (PyBool (Rneqb ax (fst new_xy) || Rneqb ay (snd new_xy))).

(** [for cell in check_cells: if check(cell): is_colliding = True]. *)
Fixpoint for_cells (check : Z * Z -> M pyret) (check_cells : list (Z * Z))
    (is_colliding : bool) : M bool :=
  match check_cells with
  | [] => ret is_colliding
  | cell :: rest =>
      r <- check cell ;;
      for_cells check rest (if truthy r then true else is_colliding)
  end.

Definition check_cells_of (coord : R * R) : list (Z * Z) :=
  let x := py_round (fst coord) in
  let y := py_round (snd coord) in
  [(x - 1, y - 1); (x - 1, y); (x, y); (x, y - 1)]%Z.

Definition _handle_collision : M bool :=
  coord <- gets (fun self => coord (agent (_level self))) ;;
  let check_cells := check_cells_of coord in
  is_colliding <- for_cells _handle_bounding_collision check_cells false ;;
  for_cells _handle_corner_collision check_cells is_colliding.

(** ** Walking and stepping *)

Definition _walk (theta distance : R) : M bool :=
  xy <- gets (fun self => coord (agent (_level self))) ;;
  let x := fst xy in
  let y := snd xy in
  modify (set_coord (x + distance * cos theta, y + distance * sin theta)) ;;;
  is_colliding <- _handle_collision ;;
  modify (fun self =>
    set_coins (_collect_coins (coins (_level self)) (_coin_radius self)
                 (fst (coord (agent (_level self))))
                 (snd (coord (agent (_level self))))
                 (_agent_radius self)) self) ;;;
  ret is_colliding.

Section Actions.

(** The three action constants come from [enum.Enum().next()], a module of
    the repository that is not among the sources: they are parameters here,
    integers handed out by an incrementing counter. *)
Variables ACTION_WALK_FORWARD ACTION_TURN_LEFT ACTION_TURN_RIGHT : Z.

Definition ACTIONS : list Z :=
  [ACTION_WALK_FORWARD; ACTION_TURN_LEFT; ACTION_TURN_RIGHT].

Definition step (action : Z) : M bool :=
  let is_colliding := false in
  if (action =? ACTION_WALK_FORWARD)%Z then
    t <- gets (fun self => theta (agent (_level self))) ;;
    s <- gets _stride ;;
    _walk t s
  else if (action =? ACTION_TURN_LEFT)%Z then
    modify (fun self => set_theta (theta (agent (_level self)) + _turn self) self) ;;;
    t <- gets (fun self => theta (agent (_level self))) ;;
    s <- gets _stride_on_turn ;;
    _walk t s
  else if (action =? ACTION_TURN_RIGHT)%Z then
    modify (fun self => set_theta (theta (agent (_level self)) - _turn self) self) ;;;
    t <- gets (fun self => theta (agent (_level self))) ;;
    s <- gets _stride_on_turn ;;
    _walk t s
  else ret is_colliding.

(** The counter of the enumeration hands out a fresh value at each call. *)
Definition actions_distinct : Prop :=
  ACTION_WALK_FORWARD <> ACTION_TURN_LEFT /\
  ACTION_WALK_FORWARD <> ACTION_TURN_RIGHT /\
  ACTION_TURN_LEFT <> ACTION_TURN_RIGHT.

Definition unrecognized (action : Z) : Prop :=
  action <> ACTION_WALK_FORWARD /\
  action <> ACTION_TURN_LEFT /\
  action <> ACTION_TURN_RIGHT.

End Actions.

(** ** Vocabulary of the properties *)

(** [moved self self']: [self'] is [self] with another agent position. *)
Definition moved (self self' : Controller) : Prop :=
  exists xy, self' = set_coord xy self.

(** What [_walk] does once the position is updated. *)
Definition resolve_and_collect : M bool :=
  is_colliding <- _handle_collision ;;
  modify (fun self =>
    set_coins (_collect_coins (coins (_level self)) (_coin_radius self)
                 (fst (coord (agent (_level self))))
                 (snd (coord (agent (_level self))))
                 (_agent_radius self)) self) ;;;
  ret is_colliding.

(** The test of the loop body. *)
Definition near (threshold2 agent_x agent_y : R) (coin : R * R) : bool :=
  Rltb (coin_dist2 agent_x agent_y coin) threshold2.

(** A left-to-right scan that tells the loop's story without indices: a
    coin in range is dropped, and the coin that slides into its place is
    passed over, untested, because the index moves on all the same. *)
Fixpoint scan (threshold2 agent_x agent_y : R) (passed_over : bool)
    (coins : list (R * R)) : list (R * R) :=
  match coins with
  | [] => []
  | coin :: rest =>
      if passed_over then coin :: scan threshold2 agent_x agent_y false rest
      else if near threshold2 agent_x agent_y coin
           then scan threshold2 agent_x agent_y true rest
           else coin :: scan threshold2 agent_x agent_y false rest
  end.

(** How a check finds its cell: to be skipped (out of bounds, or open), a
    solid cell, or a grid too small for its recorded shape. *)
Inductive cell_kind := Skipped | Solid | OutOfGrid.

Definition cell_kind_of (grid_shape : Z * Z) (g : list (list Z)) (cell : Z * Z)
    : cell_kind :=
  if out_of_bounds grid_shape (fst cell) (snd cell) then Skipped else
  match py_index g (fst grid_shape - snd cell - 1)%Z with
  | None => OutOfGrid
  | Some row =>
      match py_index row (fst cell) with
      | None => OutOfGrid
      | Some v => if (v =? 0)%Z then Skipped else Solid
      end
  end.

Definition kind (self : Controller) (cell : Z * Z) : cell_kind :=
  cell_kind_of (_grid_shape self) (grid (_level self)) cell.

(** The position a face check assigns, for a solid cell. *)
Definition face_push (cell : Z * Z) (ar : R) (p : R * R) : R * R :=
  let cx := fst cell in let cy := snd cell in
  let ax := fst p in let ay := snd p in
  let ccx := IZR (cx + (cx + 1)) / 2 in
  let ccy := IZR (cy + (cy + 1)) / 2 in
  (if Rleb (IZR cy) ay && Rleb ay (IZR (cy + 1)) then
     if Rgtb ax ccx && Rltb (ax - IZR (cx + 1)) ar then IZR (cx + 1) + ar
     else if Rltb ax ccx && Rltb (IZR cx - ax) ar then IZR cx - ar
     else ax
   else ax,
   if Rleb (IZR cx) ax && Rleb ax (IZR (cx + 1)) then
     if Rgtb ay ccy && Rltb (ay - IZR (cy + 1)) ar then IZR (cy + 1) + ar
     else if Rltb ay ccy && Rltb (IZR cy - ay) ar then IZR cy - ar
     else ay
   else ay).

(** The corner a corner check measures from. *)
Definition nearest_corner (cell : Z * Z) (p : R * R) : Z * Z :=
  let cx := fst cell in let cy := snd cell in
  (if Rleb (fst p) (IZR (cx + (cx + 1)) / 2) then cx else (cx + 1)%Z,
   if Rleb (snd p) (IZR (cy + (cy + 1)) / 2) then cy else (cy + 1)%Z).

Definition corner_dist2 (cell : Z * Z) (p : R * R) : R :=
  let vx := fst p - IZR (fst (nearest_corner cell p)) in
  let vy := snd p - IZR (snd (nearest_corner cell p)) in
  vx * vx + vy * vy.

(** The position a corner check assigns, for a solid cell; [None] when the
    division by the distance fails. *)
Definition corner_push (cell : Z * Z) (ar : R) (p : R * R) : option (R * R) :=
  let n := nearest_corner cell p in
  let vx := fst p - IZR (fst n) in
  let vy := snd p - IZR (snd n) in
  let dist2 := corner_dist2 cell p in
  if Rltb dist2 (ar * ar) then
    if Rneqb (sqrt dist2) 0
    then Some (IZR (fst n) + vx * ar / sqrt dist2, IZR (snd n) + vy * ar / sqrt dist2)
    else None
  else Some (fst p, snd p).

Definition changed (p p' : R * R) : bool :=
  Rneqb (fst p) (fst p') || Rneqb (snd p) (snd p').

(** Squared distance from a point to the closed unit box of a cell. *)
Definition box_dist2 (cell : Z * Z) (p : R * R) : R :=
  let dx := Rmax 0 (Rmax (IZR (fst cell) - fst p) (fst p - IZR (fst cell + 1))) in
  let dy := Rmax 0 (Rmax (IZR (snd cell) - snd p) (snd p - IZR (snd cell + 1))) in
  dx * dx + dy * dy.

(** The agent's disc reaches into the interior of a solid cell. *)
Definition overlaps (self : Controller) (cell : Z * Z) : Prop :=
  kind self cell = Solid /\
  box_dist2 cell (coord (agent (_level self))) < _agent_radius self * _agent_radius self.

Definition clear (self : Controller) : Prop :=
  forall cell, ~ overlaps self cell.

(** Rows are stored top-down: the solid cells are (1,1) and (0,0). *)
Definition checkerboard : list (list Z) := [[0; 1]; [1; 0]]%Z.

(** Stride 0.2, agent radius 0.1, coin radius 0.05, heading 0, no coins. *)
Definition board (xy : R * R) : Controller :=
  __init__ (1 / 5) (1 / 10) (1 / 2) (1 / 10) (1 / 20)
    {| grid := checkerboard; agent := {| coord := xy; theta := 0 |}; coins := [] |}.

(** The recorded shape and the grid agree: every cell within the shape is
    there to be read. *)
Definition grid_matches_shape (self : Controller) : Prop :=
  forall cell, kind self cell <> OutOfGrid.

(** ** Running several steps *)

(** [for action in actions: controller.step(action)]: the loop of any
    driver of the controller; an exception ends it. *)
Fixpoint steps (walk_forward turn_left turn_right : Z) (actions : list Z)
    : M unit :=
  match actions with
  | [] => ret tt
  | action :: rest =>
      step walk_forward turn_left turn_right action ;;;
      steps walk_forward turn_left turn_right rest
  end.

(** ** More vocabulary *)

(** [subseq l1 l2]: [l1] is [l2] with some elements taken out, the others
    in their order. *)
Inductive subseq {A : Type} : list A -> list A -> Prop :=
| subseq_nil : subseq [] []
| subseq_keep x l1 l2 : subseq l1 l2 -> subseq (x :: l1) (x :: l2)
| subseq_drop x l1 l2 : subseq l1 l2 -> subseq l1 (x :: l2).


(** All rows of the grid have the length of the first. *)
Definition rectangular (g : list (list Z)) : Prop :=
  forall row, In row g -> length row = length (hd [] g).

(** The controller's recorded shape is that of its grid, as [__init__]
    leaves it for a rectangular grid. *)
Definition well_formed (self : Controller) : Prop :=
  _grid_shape self = shape (grid (_level self)) /\
  rectangular (grid (_level self)).

(** The parts of a controller that no method assigns. *)
Definition same_setting (self self' : Controller) : Prop :=
  grid (_level self') = grid (_level self) /\
  _grid_shape self' = _grid_shape self /\
  _stride self' = _stride self /\
  _stride_on_turn self' = _stride_on_turn self /\
  _turn self' = _turn self /\
  _agent_radius self' = _agent_radius self /\
  _coin_radius self' = _coin_radius self.


(** * The learner (src/learner.py) *)

Module Learner.

(** The numeric fields of [Learner] that [_discount] and [_epsilon] read;
    [_step] counts the calls of [perceive]. *)
Record Learner := mkLearner {
  _gamma : R;
  _e_start : R;
  _e_end : R;
  _e_start_t : R;
  _e_end_t : R;
  _step : Z
}.

Inductive exn := AssertionError | ZeroDivisionError.

(** [Learner._discount]: one pass over the rewards from the last to the
    first, the running total appended at each, the list handed back in
    reverse. *)
Definition _discount (self : Learner) (rewards : list R) : list R :=
  let gamma := _gamma self in
  let '(_, d_rewards) :=
    fold_left
      (fun (acc : R * list R) (reward : R) =>
         let total_reward := gamma * fst acc + reward in
         (total_reward, snd acc ++ [total_reward]))
      (rev rewards) (0, []) in
  rev d_rewards.

(** [Learner._epsilon]: the two assertions, then the linear annealing with
    true division ([from __future__ import division]), clamped. *)
Definition _epsilon (self : Learner) : R + exn :=
  let step := IZR (_step self) in
  let e_start := _e_start self in
  let e_end := _e_end self in
  let e_start_t := _e_start_t self in
  let e_end_t := _e_end_t self in
  if negb (Rleb e_end e_start) then inr AssertionError else
  if negb (Rleb e_start_t e_end_t) then inr AssertionError else
  if Rneqb (e_end_t - e_start_t) 0 then
    let t := (step - e_start_t) / (e_end_t - e_start_t) in
    let e := e_start + t * (e_end - e_start) in
    let e := Rmin e e_start in
    let e := Rmax e e_end in
    inl e
  else inr ZeroDivisionError.

(** The discounted return of a reward sequence:
    r0 + gamma r1 + gamma^2 r2 + ... *)
Fixpoint discounted_return (gamma : R) (rewards : list R) : R :=
  match rewards with
  | [] => 0
  | r :: rest => r + gamma * discounted_return gamma rest
  end.

(** The returns from each position on: one per reward. *)
Fixpoint returns_from (gamma : R) (rewards : list R) : list R :=
  match rewards with
  | [] => []
  | r :: rest => discounted_return gamma rewards :: returns_from gamma rest
  end.

(** The learner at another step count. *)
Definition at_step (self : Learner) (n : Z) : Learner :=
  mkLearner (_gamma self) (_e_start self) (_e_end self)
            (_e_start_t self) (_e_end_t self) n.

End Learner.

(** * The drawing front end's geometry (src/draw.py) *)

Module Draw.

(** The fields of [Draw] that the geometry reads. *)
Record Draw := mkDraw {
  _grid_shape : Z * Z;
  _coin_radius : R;
  _agent_radius : R
}.

Inductive exn := ZeroDivisionError | IndexError.

Inductive outcome (A : Type) :=
| Return (a : A)
| Raise (e : exn).
Arguments Return {A} a.
Arguments Raise {A} e.

(** [Draw.normalize]: the halves are floats (true division of an int by
    2); dividing a coordinate by a zero half raises. *)
Definition normalize (self : Draw) (coord : R * R) : outcome (R * R) :=
  let w_half := IZR (fst (_grid_shape self)) / 2 in
  let h_half := IZR (snd (_grid_shape self)) / 2 in
  if Rneqb w_half 0 then
    if Rneqb h_half 0 then
      Return (fst coord / w_half - 1, snd coord / h_half - 1)
    else Raise ZeroDivisionError
  else Raise ZeroDivisionError.

(** [l[i] = v] for an index from 0 on; [None] stands for IndexError. *)
Fixpoint list_set {A} (l : list A) (i : nat) (v : A) : option (list A) :=
  match l, i with
  | [], _ => None
  | _ :: rest, O => Some (v :: rest)
  | a :: rest, S j =>
      match list_set rest j v with
      | Some rest' => Some (a :: rest')
      | None => None
      end
  end.

(** The four assignments of one iteration, one after the other. *)
Fixpoint assign_from {A} (l : list A) (offset : nat) (values : list A)
    : option (list A) :=
  match values with
  | [] => Some l
  | v :: rest =>
      match list_set l offset v with
      | Some l' => assign_from l' (S offset) rest
      | None => None
      end
  end.

(** The corners written for one coin or for the agent, in the order of the
    source. *)
Definition quad (r : R) (normal : R * R) : list (R * R) :=
  [(fst normal - r, snd normal - r);
   (fst normal - r, snd normal + r);
   (fst normal + r, snd normal + r);
   (fst normal + r, snd normal - r)].

(** The [for coin in coins] loop of [coin_positions]. *)
Fixpoint coin_positions_loop (self : Draw) (coins : list (R * R))
    (offset : nat) (positions : list (option (R * R)))
    : outcome (list (option (R * R))) :=
  match coins with
  | [] => Return positions
  | coin :: rest =>
      match normalize self coin with
      | Raise e => Raise e
      | Return normal =>
          match assign_from positions offset
                  (map Some (quad (_coin_radius self) normal)) with
          | None => Raise IndexError
          | Some positions' =>
              coin_positions_loop self rest (offset + 4) positions'
          end
      end
  end.

(** [Draw.coin_positions]. *)
Definition coin_positions (self : Draw) (coins : list (R * R))
    : outcome (list (option (R * R))) :=
  let positions := repeat None (length coins * 4) in
  coin_positions_loop self coins 0 positions.


End Draw.

(** No cell of the grid is solid. *)
Definition no_solid_cell (self : Controller) : Prop :=
  forall cell, kind self cell <> Solid.

(** A two-by-two grid of open cells, with the settings of [board]. *)
Definition meadow (xy : R * R) : Controller :=
  __init__ (1 / 5) (1 / 10) (1 / 2) (1 / 10) (1 / 20)
    {| grid := [[0; 0]; [0; 0]]%Z;
       agent := {| coord := xy; theta := 0 |}; coins := [] |}.

(** * The controller on binary64 floats *)

(** The coin collector and the collision checks once more, on IEEE 754
    binary64 values with Python's float operations: every [+], [-], [*],
    [/] and [sqrt] rounds to nearest, ties to even, and the comparisons
    compare the rounded results. *)
Module Binary64.
Import PrimFloat FloatOps SpecFloat.

(** ** The coin collector *)

Definition coin_dist2 (agent_x agent_y : float) (coin : float * float) : float :=
  let cx := fst coin in
  let cy := snd coin in
  let vx := PrimFloat.sub cx agent_x in
  let vy := PrimFloat.sub cy agent_y in
  PrimFloat.add (PrimFloat.mul vx vx) (PrimFloat.mul vy vy).

(** The [while i < len(coins)] loop, started at index [i]. *)
Equations? collect_loop (threshold2 agent_x agent_y : float)
    (coins : list (float * float)) (i : nat) : list (float * float)
    by wf (length coins - i)%nat lt :=
  collect_loop threshold2 agent_x agent_y coins i
    with le_lt_dec (length coins) i => {
    | left _ := coins
    | right Hi with PrimFloat.ltb
                      (coin_dist2 agent_x agent_y
                         (nth i coins (PrimFloat.zero, PrimFloat.zero)))
                      threshold2 => {
      | true := collect_loop threshold2 agent_x agent_y (list_del coins i) (S i)
      | false := collect_loop threshold2 agent_x agent_y coins (S i) } }.
Proof.
  - unfold list_del. rewrite length_app, length_firstn, length_skipn. lia.
  - lia.
Qed.

Definition _collect_coins (coins : list (float * float))
    (coin_radius agent_x agent_y agent_radius : float) : list (float * float) :=
  let threshold := PrimFloat.add agent_radius coin_radius in
  let threshold2 := PrimFloat.mul threshold threshold in
  collect_loop threshold2 agent_x agent_y coins 0.

(** The test of the loop body. *)
Definition near (threshold2 agent_x agent_y : float) (coin : float * float) : bool :=
  PrimFloat.ltb (coin_dist2 agent_x agent_y coin) threshold2.

(** The loop's story without indices, as for the reals: a coin that
    passes the test is dropped and the next one passed over. *)
Fixpoint scan (threshold2 agent_x agent_y : float) (passed_over : bool)
    (coins : list (float * float)) : list (float * float) :=
  match coins with
  | [] => []
  | coin :: rest =>
      if passed_over then coin :: scan threshold2 agent_x agent_y false rest
      else if near threshold2 agent_x agent_y coin
           then scan threshold2 agent_x agent_y true rest
           else coin :: scan threshold2 agent_x agent_y false rest
  end.

(** The real number a finite binary64 value stands for: mantissa times a
    power of two, signed (0 for zeros; infinities and NaN, which stand
    for no number, are given 0 too). *)
Definition real_of (f : float) : R :=
  match Prim2SF f with
  | S754_finite s m e =>
      (if s then -1 else 1) *
      (if (0 <=? e)%Z then IZR (Zpos m * 2 ^ e) else IZR (Zpos m) / IZR (2 ^ (- e)))
  | _ => 0
  end.

(** The float nearest to [n / d], for [n] and [d] below 2^53: what
    Python reads a decimal literal of that value as.  It is [n / d]
    itself when that is a float, as with [d] a power of two. *)
Definition of_ratio (n d : Z) : float :=
  PrimFloat.div (PrimFloat.of_uint63 (Uint63.of_Z n))
                (PrimFloat.of_uint63 (Uint63.of_Z d)).

(** ** Collision resolution *)

(** A float that stands for a number: neither an infinity nor NaN. *)
Definition finite (f : float) : bool :=
  match Prim2SF f with
  | S754_zero _ => true
  | S754_finite _ _ _ => true
  | _ => false
  end.

(** The float of a Python [int] that meets a float in an operation;
    exact for magnitudes below 2^53, as the indices of a grid are. *)
Definition of_int (n : Z) : float :=
  if (n <? 0)%Z then PrimFloat.opp (PrimFloat.of_uint63 (Uint63.of_Z (- n)))
  else PrimFloat.of_uint63 (Uint63.of_Z n).

Inductive exn := ZeroDivisionError | IndexError | OverflowError | ValueError.

Inductive outcome (A : Type) :=
| Return (a : A)
| Raise (e : exn).
Arguments Return {A} a.
Arguments Raise {A} e.

(** Python 3 [round(x)] on a float: the nearest integer, a tie going to
    the even neighbour; OverflowError on an infinity, ValueError on NaN. *)
Definition py_round (x : float) : outcome Z :=
  match Prim2SF x with
  | S754_nan => Raise ValueError
  | S754_infinity _ => Raise OverflowError
  | S754_zero _ => Return 0%Z
  | S754_finite s m e =>
      let n :=
        if (0 <=? e)%Z then (Zpos m * 2 ^ e)%Z
        else
          let d := (2 ^ (- e))%Z in
          let q := (Zpos m / d)%Z in
          let r := (Zpos m mod d)%Z in
          if (2 * r <? d)%Z then q
          else if (d <? 2 * r)%Z then (q + 1)%Z
          else if Z.even q then q else (q + 1)%Z in
      Return (if s then (- n)%Z else n)
  end.

(** What collision resolution reads of the controller and its level:
    [self._level.grid], [self._level.agent.coord], the only part it
    assigns, [self._grid_shape] and [self._agent_radius]. *)
Record Controller := mkController {
  grid : list (list Z);
  coord : float * float;
  _grid_shape : Z * Z;
  _agent_radius : float
}.

Definition __init__ (agent_radius : float) (g : list (list Z))
    (xy : float * float) : Controller :=
  {| grid := g; coord := xy; _grid_shape := shape g;
     _agent_radius := agent_radius |}.

Definition set_coord (xy : float * float) (self : Controller) : Controller :=
  {| grid := grid self; coord := xy; _grid_shape := _grid_shape self;
     _agent_radius := _agent_radius self |}.

(** [grid[r][c]]; [None] stands for IndexError. *)
Definition grid_at (g : list (list Z)) (r c : Z) : option Z :=
  match py_index g r with
  | None => None
  | Some row => py_index row c
  end.

(** [a != b] on floats. *)
Definition neqb (a b : float) : bool := negb (PrimFloat.eqb a b).

(** The methods pass the controller along: each returns its result, or
    the exception it raised, and the controller as it then is. *)
Definition _handle_bounding_collision (cell_coord : Z * Z) (self : Controller)
    : outcome pyret * Controller :=
  let grid_shape := _grid_shape self in
  let cx := fst cell_coord in
  let cy := snd cell_coord in
  if out_of_bounds grid_shape cx cy then (Return PyNone, self) else
  let cy_flip := (fst grid_shape - cy - 1)%Z in
  match grid_at (grid self) cy_flip cx with
  | None => (Raise IndexError, self)
  | Some cell =>
      if (cell =? 0)%Z then (Return PyNone, self) else
      let cx0 := cx in let cx1 := (cx + 1)%Z in
      let cy0 := cy in let cy1 := (cy + 1)%Z in
      let ccx := PrimFloat.div (of_int (cx0 + cx1)) (of_int 2) in
      let ccy := PrimFloat.div (of_int (cy0 + cy1)) (of_int 2) in
      let ax := fst (coord self) in
      let ay := snd (coord self) in
      let ar := _agent_radius self in
      let new_x := ax in
      let new_y := ay in
      let new_y :=
        if PrimFloat.leb (of_int cx0) ax && PrimFloat.leb ax (of_int cx1) then
          if PrimFloat.ltb ccy ay && PrimFloat.ltb (PrimFloat.sub ay (of_int cy1)) ar
          then PrimFloat.add (of_int cy1) ar
          else if PrimFloat.ltb ay ccy && PrimFloat.ltb (PrimFloat.sub (of_int cy0) ay) ar
          then PrimFloat.sub (of_int cy0) ar
          else new_y
        else new_y in
      let new_x :=
        if PrimFloat.leb (of_int cy0) ay && PrimFloat.leb ay (of_int cy1) then
          if PrimFloat.ltb ccx ax && PrimFloat.ltb (PrimFloat.sub ax (of_int cx1)) ar
          then PrimFloat.add (of_int cx1) ar
          else if PrimFloat.ltb ax ccx && PrimFloat.ltb (PrimFloat.sub (of_int cx0) ax) ar
          then PrimFloat.sub (of_int cx0) ar
          else new_x
        else new_x in
      (Return (PyBool (neqb ax new_x || neqb ay new_y)),
       set_coord (new_x, new_y) self)
  end.

Definition _handle_corner_collision (cell_coord : Z * Z) (self : Controller)
    : outcome pyret * Controller :=
  let grid_shape := _grid_shape self in
  let cx := fst cell_coord in
  let cy := snd cell_coord in
  if out_of_bounds grid_shape cx cy then (Return PyNone, self) else
  let cy_flip := (fst grid_shape - cy - 1)%Z in
  match grid_at (grid self) cy_flip cx with
  | None => (Raise IndexError, self)
  | Some cell =>
      if (cell =? 0)%Z then (Return PyNone, self) else
      let cx0 := cx in let cx1 := (cx + 1)%Z in
      let cy0 := cy in let cy1 := (cy + 1)%Z in
      let ccx := PrimFloat.div (of_int (cx0 + cx1)) (of_int 2) in
      let ccy := PrimFloat.div (of_int (cy0 + cy1)) (of_int 2) in
      let ax := fst (coord self) in
      let ay := snd (coord self) in
      let ar := _agent_radius self in
      let ar2 := PrimFloat.mul ar ar in
      let ncx := if PrimFloat.leb ax ccx then cx0 else cx1 in
      let ncy := if PrimFloat.leb ay ccy then cy0 else cy1 in
      let vx := PrimFloat.sub ax (of_int ncx) in
      let vy := PrimFloat.sub ay (of_int ncy) in
      let dist2 := PrimFloat.add (PrimFloat.mul vx vx) (PrimFloat.mul vy vy) in
      if PrimFloat.ltb dist2 ar2 then
        let dist := PrimFloat.sqrt dist2 in
        (* [vx * ar / dist]: a float division by zero raises *)
        if PrimFloat.eqb dist PrimFloat.zero then (Raise ZeroDivisionError, self) else
        let vxr := PrimFloat.div (PrimFloat.mul vx ar) dist in
        let vyr := PrimFloat.div (PrimFloat.mul vy ar) dist in
        let new_x := PrimFloat.add (of_int ncx) vxr in
        let new_y := PrimFloat.add (of_int ncy) vyr in
        (Return (PyBool (neqb ax new_x || neqb ay new_y)),
         set_coord (new_x, new_y) self)
      else
        (Return (PyBool (neqb ax ax || neqb ay ay)), set_coord (ax, ay) self)
  end.

(** [for cell in check_cells: if check(cell): is_colliding = True]. *)
Fixpoint for_cells (check : Z * Z -> Controller -> outcome pyret * Controller)
    (check_cells : list (Z * Z)) (is_colliding : bool) (self : Controller)
    : outcome bool * Controller :=
  match check_cells with
  | [] => (Return is_colliding, self)
  | cell :: rest =>
      match check cell self with
      | (Return r, self') =>
          for_cells check rest (if truthy r then true else is_colliding) self'
      | (Raise e, self') => (Raise e, self')
      end
  end.

Definition _handle_collision (self : Controller) : outcome bool * Controller :=
  match py_round (fst (coord self)) with
  | Raise e => (Raise e, self)
  | Return x =>
      match py_round (snd (coord self)) with
      | Raise e => (Raise e, self)
      | Return y =>
          let check_cells := [(x - 1, y - 1); (x - 1, y); (x, y); (x, y - 1)]%Z in
          match for_cells _handle_bounding_collision check_cells false self with
          | (Raise e, self') => (Raise e, self')
          | (Return is_colliding, self') =>
              for_cells _handle_corner_collision check_cells is_colliding self'
          end
      end
  end.

(** The corner a corner check measures from. *)
Definition nearest_corner (cell : Z * Z) (p : float * float) : Z * Z :=
  let cx := fst cell in let cy := snd cell in
  (if PrimFloat.leb (fst p) (PrimFloat.div (of_int (cx + (cx + 1))) (of_int 2))
   then cx else (cx + 1)%Z,
   if PrimFloat.leb (snd p) (PrimFloat.div (of_int (cy + (cy + 1))) (of_int 2))
   then cy else (cy + 1)%Z).

(** Three cells by three; rows are stored top-down: the solid cells are
    (1,1) and (2,2).  The radius is 1 - 2^-53, the largest float below 1. *)
Definition staircase (xy : float * float) : Controller :=
  __init__ (of_ratio 9007199254740991 9007199254740992)
    [[0; 0; 1]; [0; 1; 0]; [0; 0; 0]]%Z xy.

End Binary64.

(** * Properties *)

(** ** Comparisons *)

Lemma Rltb_true a b : Rltb a b = true <-> a < b.
Proof. unfold Rltb; destruct (Rlt_dec a b); split; intros; try easy. Qed.

Lemma Rltb_false a b : Rltb a b = false <-> b <= a.
Proof. unfold Rltb; destruct (Rlt_dec a b); split; intros; try easy; lra. Qed.

Lemma Rleb_true a b : Rleb a b = true <-> a <= b.
Proof. unfold Rleb; destruct (Rle_dec a b); split; intros; try easy. Qed.

Lemma Rleb_false a b : Rleb a b = false <-> b < a.
Proof. unfold Rleb; destruct (Rle_dec a b); split; intros; try easy; lra. Qed.

Lemma Rneqb_true a b : Rneqb a b = true <-> a <> b.
Proof. unfold Rneqb; destruct (Req_dec_T a b); split; intros; try easy. Qed.

Lemma Rneqb_false a b : Rneqb a b = false <-> a = b.
Proof. unfold Rneqb; destruct (Req_dec_T a b); split; intros; try easy. Qed.

Lemma Rneqb_refl a : Rneqb a a = false.
Proof. apply Rneqb_false; reflexivity. Qed.

(** Turn every boolean comparison of the context into its proposition. *)
Ltac reflect_cmp :=
  unfold Rgtb in *;
  repeat match goal with
  | H : _ && _ = true |- _ => apply andb_true_iff in H; destruct H
  | H : Rltb _ _ = true |- _ => apply Rltb_true in H
  | H : Rltb _ _ = false |- _ => apply Rltb_false in H
  | H : Rleb _ _ = true |- _ => apply Rleb_true in H
  | H : Rleb _ _ = false |- _ => apply Rleb_false in H
  | H : Rneqb _ _ = true |- _ => apply Rneqb_true in H
  | H : Rneqb _ _ = false |- _ => apply Rneqb_false in H
  end.

(** Decide the comparisons of the goal when they are between known reals. *)
Ltac decide_cmp :=
  unfold Rgtb;
  repeat match goal with
  | |- context [Rltb ?a ?b] =>
      first [ replace (Rltb a b) with true by (symmetry; apply Rltb_true; lra)
            | replace (Rltb a b) with false by (symmetry; apply Rltb_false; lra) ]
  | |- context [Rleb ?a ?b] =>
      first [ replace (Rleb a b) with true by (symmetry; apply Rleb_true; lra)
            | replace (Rleb a b) with false by (symmetry; apply Rleb_false; lra) ]
  | |- context [Rneqb ?a ?b] =>
      first [ replace (Rneqb a b) with true by (symmetry; apply Rneqb_true; lra)
            | replace (Rneqb a b) with false by (symmetry; apply Rneqb_false; lra) ]
  end.

(** ** Rounding *)

Lemma Int_part_bounds x : IZR (Int_part x) <= x < IZR (Int_part x) + 1.
Proof. destruct (base_Int_part x). lra. Qed.

Lemma frac_part_eq x : frac_part x = x - IZR (Int_part x).
Proof. reflexivity. Qed.

(** Strictly within half a unit of an integer, [round] gives that integer. *)
Lemma py_round_near (n : Z) (x : R) :
  IZR n - 1 / 2 < x < IZR n + 1 / 2 -> py_round x = n.
Proof.
  intros [Hlo Hhi]. unfold py_round. rewrite frac_part_eq.
  pose proof (Int_part_bounds x) as [Hf1 Hf2].
  set (f := Int_part x) in *.
  assert (Hfn : (f = n \/ f = n - 1)%Z).
  { assert (IZR f < IZR (n + 1)) by (rewrite plus_IZR; lra).
    assert (IZR (n - 2) < IZR f) by (rewrite minus_IZR, <- ?plus_IZR; lra).
    apply lt_IZR in H, H0. lia. }
  destruct Hfn as [-> | ->].
  - destruct (Rlt_dec (x - IZR n) (1 / 2)); [reflexivity | lra].
  - rewrite minus_IZR in *.
    destruct (Rlt_dec (x - (IZR n - 1)) (1 / 2)); [lra |].
    destruct (Rlt_dec (1 / 2) (x - (IZR n - 1))); [lia | lra].
Qed.

(** Exactly half way between two integers, [round] gives the even one. *)
Lemma py_round_tie (n : Z) :
  py_round (IZR n + 1 / 2) = if Z.even n then n else (n + 1)%Z.
Proof.
  unfold py_round. rewrite frac_part_eq.
  pose proof (Int_part_bounds (IZR n + 1 / 2)) as [Hf1 Hf2].
  set (f := Int_part (IZR n + 1 / 2)) in *.
  assert (Hfn : f = n).
  { assert (IZR f < IZR (n + 1)) by (rewrite plus_IZR; lra).
    assert (IZR (n - 1) < IZR f) by (rewrite minus_IZR; lra).
    apply lt_IZR in H, H0. lia. }
  rewrite Hfn.
  destruct (Rlt_dec (IZR n + 1 / 2 - IZR n) (1 / 2)); [lra |].
  destruct (Rlt_dec (1 / 2) (IZR n + 1 / 2 - IZR n)); [lra | reflexivity].
Qed.

(** ** The frame of the collision checks: only the position changes *)

Lemma set_coord_same self :
  set_coord (coord (agent (_level self))) self = self.
Proof. destruct self as [[g [xy t] cs] gs s st tu ar cr]. reflexivity. Qed.

Lemma moved_refl self : moved self self.
Proof. exists (coord (agent (_level self))). symmetry. apply set_coord_same. Qed.

Lemma moved_trans s1 s2 s3 : moved s1 s2 -> moved s2 s3 -> moved s1 s3.
Proof. intros [a ->] [b ->]. exists b. reflexivity. Qed.

Lemma moved_set_coord xy self : moved self (set_coord xy self).
Proof. exists xy. reflexivity. Qed.

(** Run the monadic plumbing of a method applied to a state. *)
Ltac run := cbv beta iota delta [bind gets modify ret raise grid_at].

Lemma _handle_bounding_collision_moved cell self :
  moved self (snd (_handle_bounding_collision cell self)).
Proof.
  unfold _handle_bounding_collision. run.
  destruct (out_of_bounds _ _ _); [apply moved_refl |].
  destruct (py_index _ _) as [row |]; run; [| apply moved_refl].
  destruct (py_index row _) as [v |]; run; [| apply moved_refl].
  destruct (v =? 0)%Z; run; [apply moved_refl | apply moved_set_coord].
Qed.

Lemma _handle_corner_collision_moved cell self :
  moved self (snd (_handle_corner_collision cell self)).
Proof.
  unfold _handle_corner_collision. run.
  destruct (out_of_bounds _ _ _); [apply moved_refl |].
  destruct (py_index _ _) as [row |]; run; [| apply moved_refl].
  destruct (py_index row _) as [v |]; run; [| apply moved_refl].
  destruct (v =? 0)%Z; run; [apply moved_refl |].
  destruct (Rltb _ _); run; [| apply moved_set_coord].
  destruct (Rneqb (sqrt _) 0); run; [apply moved_set_coord | apply moved_refl].
Qed.

Lemma for_cells_moved check :
  (forall cell self, moved self (snd (check cell self))) ->
  forall cells b self, moved self (snd (for_cells check cells b self)).
Proof.
  intros Hc cells. induction cells as [| c rest IH]; intros b self.
  - apply moved_refl.
  - cbn [for_cells]. unfold bind. specialize (Hc c self).
    destruct (check c self) as [[r | e] s1]; cbn [snd] in *.
    + eapply moved_trans; [exact Hc | apply IH].
    + exact Hc.
Qed.

Lemma _handle_collision_moved self :
  moved self (snd (_handle_collision self)).
Proof.
  unfold _handle_collision, bind, gets. 
  pose proof (for_cells_moved _ _handle_bounding_collision_moved
                (check_cells_of (coord (agent (_level self)))) false self) as H1.
  destruct (for_cells _handle_bounding_collision _ _ _) as [[b | e] s1];
    cbn [snd] in *; [| exact H1].
  eapply moved_trans; [exact H1 |].
  apply for_cells_moved, _handle_corner_collision_moved.
Qed.

(** ** Walking: move, then resolve, then collect *)

Lemma _walk_unfold t d self :
  _walk t d self =
  resolve_and_collect
    (set_coord (fst (coord (agent (_level self))) + d * cos t,
                snd (coord (agent (_level self))) + d * sin t) self).
Proof. reflexivity. Qed.

Lemma set_coins_same self : set_coins (coins (_level self)) self = self.
Proof. destruct self as [[g a cs] gs s st tu ar cr]. reflexivity. Qed.

(** Resolution and collection touch the position and the coins only. *)
Lemma resolve_and_collect_frame self :
  exists xy cs, snd (resolve_and_collect self) = set_coins cs (set_coord xy self).
Proof.
  unfold resolve_and_collect. run.
  destruct (_handle_collision_moved self) as [xy Hxy].
  destruct (_handle_collision self) as [[b | e] s1]; cbn [snd] in *; subst s1.
  - eexists xy, _. reflexivity.
  - exists xy, (coins (_level (set_coord xy self))). symmetry. apply set_coins_same.
Qed.

Lemma resolve_and_collect_theta self :
  theta (agent (_level (snd (resolve_and_collect self)))) = theta (agent (_level self)).
Proof. destruct (resolve_and_collect_frame self) as (xy & cs & ->). reflexivity. Qed.

Lemma resolve_and_collect_turn self :
  _turn (snd (resolve_and_collect self)) = _turn self.
Proof. destruct (resolve_and_collect_frame self) as (xy & cs & ->). reflexivity. Qed.

Section StepProperties.

Variables ACTION_WALK_FORWARD ACTION_TURN_LEFT ACTION_TURN_RIGHT : Z.

Local Notation "'do_step'" :=
  (step ACTION_WALK_FORWARD ACTION_TURN_LEFT ACTION_TURN_RIGHT).

Lemma step_walk_forward self :
  do_step ACTION_WALK_FORWARD self =
  _walk (theta (agent (_level self))) (_stride self) self.
Proof. unfold step. rewrite Z.eqb_refl. reflexivity. Qed.

Lemma step_turn_left self :
  ACTION_TURN_LEFT <> ACTION_WALK_FORWARD ->
  do_step ACTION_TURN_LEFT self =
  _walk (theta (agent (_level self)) + _turn self) (_stride_on_turn self)
    (set_theta (theta (agent (_level self)) + _turn self) self).
Proof.
  intros H. unfold step.
  apply Z.eqb_neq in H. rewrite H, Z.eqb_refl. reflexivity.
Qed.

Lemma step_turn_right self :
  ACTION_TURN_RIGHT <> ACTION_WALK_FORWARD ->
  ACTION_TURN_RIGHT <> ACTION_TURN_LEFT ->
  do_step ACTION_TURN_RIGHT self =
  _walk (theta (agent (_level self)) - _turn self) (_stride_on_turn self)
    (set_theta (theta (agent (_level self)) - _turn self) self).
Proof.
  intros H1 H2. unfold step.
  apply Z.eqb_neq in H1, H2. rewrite H1, H2, Z.eqb_refl. reflexivity.
Qed.

Lemma step_unrecognized action self :
  unrecognized ACTION_WALK_FORWARD ACTION_TURN_LEFT ACTION_TURN_RIGHT action -> do_step action self = (Return false, self).
Proof.
  intros (H1 & H2 & H3). unfold step.
  apply Z.eqb_neq in H1, H2, H3. rewrite H1, H2, H3. reflexivity.
Qed.

(** C4 (as amended).  An action value that is none of the three recognized
    ones makes [step] raise nothing: whatever the state, the call returns
    normally, and what it returns is [False]. *)
Theorem step_unrecognized_no_error (action : Z) (self : Controller) :
  unrecognized ACTION_WALK_FORWARD ACTION_TURN_LEFT ACTION_TURN_RIGHT action ->
  (forall e, fst (do_step action self) <> Raise e) /\
  fst (do_step action self) = Return false.
Proof.
  intros H. rewrite (step_unrecognized action self H). cbn [fst].
  split; [intros e; discriminate | reflexivity].
Qed.

(** C10.  For an action value that is none of the three recognized ones,
    [step] returns [False] and leaves the controller's whole state as it
    was: the agent's position and heading, the coin collection and the
    grid. *)
Theorem step_unrecognized_frame (action : Z) (self : Controller) :
  unrecognized ACTION_WALK_FORWARD ACTION_TURN_LEFT ACTION_TURN_RIGHT action ->
  let (result, self') := do_step action self in
  result = Return false /\
  coord (agent (_level self')) = coord (agent (_level self)) /\
  theta (agent (_level self')) = theta (agent (_level self)) /\
  coins (_level self') = coins (_level self) /\
  grid (_level self') = grid (_level self) /\
  self' = self.
Proof.
  intros H. rewrite (step_unrecognized action self H). repeat split.
Qed.

(** C8.  [step(WalkForward)] adds (stride cos theta, stride sin theta) to
    the position, collision resolution and coin collection then run from
    that position, and the heading is what it was.  [step(TurnLeft)] first
    adds [turn] to the heading, then moves [stride_on_turn] along the new
    heading; [step(TurnRight)] does the same with [turn] subtracted. *)
Theorem step_moves_along_heading (self : Controller) :
  actions_distinct ACTION_WALK_FORWARD ACTION_TURN_LEFT ACTION_TURN_RIGHT ->
  let x := fst (coord (agent (_level self))) in
  let y := snd (coord (agent (_level self))) in
  let th := theta (agent (_level self)) in
  (do_step ACTION_WALK_FORWARD self =
     resolve_and_collect
       (set_coord (x + _stride self * cos th, y + _stride self * sin th) self) /\
   theta (agent (_level (snd (do_step ACTION_WALK_FORWARD self)))) = th) /\
  (do_step ACTION_TURN_LEFT self =
     resolve_and_collect
       (set_coord (x + _stride_on_turn self * cos (th + _turn self),
                   y + _stride_on_turn self * sin (th + _turn self))
          (set_theta (th + _turn self) self)) /\
   theta (agent (_level (snd (do_step ACTION_TURN_LEFT self)))) = th + _turn self) /\
  (do_step ACTION_TURN_RIGHT self =
     resolve_and_collect
       (set_coord (x + _stride_on_turn self * cos (th - _turn self),
                   y + _stride_on_turn self * sin (th - _turn self))
          (set_theta (th - _turn self) self)) /\
   theta (agent (_level (snd (do_step ACTION_TURN_RIGHT self)))) = th - _turn self).
Proof.
  intros (Hwl & Hwr & Hlr). cbv zeta.
  rewrite step_walk_forward, step_turn_left, step_turn_right by congruence.
  rewrite !_walk_unfold, !resolve_and_collect_theta.
  repeat split.
Qed.

(** C9.  Whatever the state, [step(TurnLeft)] followed by [step(TurnRight)]
    leaves the heading where it started (exactly so over the reals); the
    position is in general another one. *)
Theorem turn_left_then_right_heading (self : Controller) :
  actions_distinct ACTION_WALK_FORWARD ACTION_TURN_LEFT ACTION_TURN_RIGHT ->
  let self1 := snd (do_step ACTION_TURN_LEFT self) in
  let self2 := snd (do_step ACTION_TURN_RIGHT self1) in
  theta (agent (_level self2)) = theta (agent (_level self)).
Proof.
  intros (Hwl & Hwr & Hlr). cbv zeta.
  rewrite step_turn_right by congruence.
  rewrite _walk_unfold, resolve_and_collect_theta. cbn [set_coord set_agent set_theta theta agent _level _turn].
  rewrite step_turn_left by congruence.
  rewrite _walk_unfold, resolve_and_collect_theta, resolve_and_collect_turn.
  cbn [set_coord set_agent set_theta theta agent _level _turn]. lra.
Qed.

End StepProperties.

(** ** The coin collector: what the index loop computes *)

Lemma split_at_index {A} (l : list A) (i : nat) (d : A) :
  (i < length l)%nat ->
  l = firstn i l ++ nth i l d :: skipn (S i) l /\ length (firstn i l) = i.
Proof.
  revert i. induction l as [| a l IH]; intros i Hi; cbn in Hi; [lia |].
  destruct i as [| i]; [split; reflexivity |].
  destruct (IH i ltac:(lia)) as [H1 H2]. split.
  - cbn [firstn nth skipn app]. cbn [skipn] in H1. rewrite <- H1. reflexivity.
  - cbn. rewrite H2. reflexivity.
Qed.

Lemma firstn_skipn_past {A} (l : list A) (i : nat) :
  (length l <= i)%nat -> firstn i l = l /\ skipn i l = [].
Proof. intros H. split; [apply firstn_all2 | apply skipn_all2]; exact H. Qed.

Lemma collect_loop_scan t2 ax ay cs i :
  collect_loop t2 ax ay cs i =
  firstn i cs ++ scan t2 ax ay false (skipn i cs).
Proof.
  funelim (collect_loop t2 ax ay cs i);
    rename coins0 into coins.
  - destruct (firstn_skipn_past coins i l) as [-> ->].
    cbn. rewrite app_nil_r. reflexivity.
  - rewrite H. clear H Heqcall.
    destruct (split_at_index coins i (0, 0) Hi) as [Hs Hl].
    set (pre := firstn i coins) in *. set (post := skipn (S i) coins) in *.
    set (c := nth i coins (0, 0)) in *.
    assert (Hd : list_del coins i = pre ++ post) by reflexivity.
    assert (Hsk : skipn i coins = c :: post).
    { rewrite Hs at 1. rewrite skipn_app, Hl, Nat.sub_diag.
      rewrite (skipn_all2 pre) by lia. reflexivity. }
    rewrite Hd, Hsk. cbn [scan]. unfold near, Rltb.
    destruct (Rlt_dec (coin_dist2 agent_x agent_y c) threshold2); [| contradiction].
    replace (S i) with (length pre + 1)%nat by lia.
    rewrite firstn_app_2, skipn_app, Nat.add_comm, Nat.add_sub.
    rewrite (skipn_all2 pre) by lia. rewrite <- app_assoc. f_equal.
    destruct post; reflexivity.
  - rewrite H. clear H Heqcall.
    destruct (split_at_index coins i (0, 0) Hi) as [Hs Hl].
    set (pre := firstn i coins) in *. set (post := skipn (S i) coins) in *.
    set (c := nth i coins (0, 0)) in *.
    assert (Hsk : skipn i coins = c :: post).
    { rewrite Hs at 1. rewrite skipn_app, Hl, Nat.sub_diag.
      rewrite (skipn_all2 pre) by lia. reflexivity. }
    rewrite Hsk. cbn [scan]. unfold near, Rltb.
    destruct (Rlt_dec (coin_dist2 agent_x agent_y c) threshold2); [contradiction |].
    assert (Hf : firstn (S i) coins = pre ++ [c]).
    { rewrite Hs at 1. replace (S i) with (length pre + 1)%nat by lia.
      rewrite firstn_app_2. reflexivity. }
    rewrite Hf, <- app_assoc. reflexivity.
Qed.

Lemma _collect_coins_scan coins coin_radius agent_x agent_y agent_radius :
  _collect_coins coins coin_radius agent_x agent_y agent_radius =
  scan ((agent_radius + coin_radius) * (agent_radius + coin_radius))
       agent_x agent_y false coins.
Proof. unfold _collect_coins. rewrite collect_loop_scan. reflexivity. Qed.

(** A coin that fails the test is never removed, tested or not. *)
Lemma scan_keeps t2 ax ay coin coins passed_over :
  near t2 ax ay coin = false -> In coin coins ->
  In coin (scan t2 ax ay passed_over coins).
Proof.
  intros Hn. revert passed_over.
  induction coins as [| c rest IH]; intros po Hin; [contradiction |].
  cbn [scan]. destruct Hin as [-> | Hin].
  - destruct po; [left; reflexivity |]. rewrite Hn. left; reflexivity.
  - destruct po; [right; auto |].
    destruct (near t2 ax ay c); [auto | right; auto].
Qed.

(** The coins out of range survive, in their original order. *)
Lemma scan_filter_far t2 ax ay coins passed_over :
  filter (fun c => negb (near t2 ax ay c)) (scan t2 ax ay passed_over coins) =
  filter (fun c => negb (near t2 ax ay c)) coins.
Proof.
  revert passed_over. induction coins as [| c rest IH]; intros po; [reflexivity |].
  cbn [scan]. destruct po.
  - cbn [filter]. rewrite IH. reflexivity.
  - destruct (near t2 ax ay c) eqn:E; cbn [filter]; rewrite E; cbn [negb];
      rewrite IH; reflexivity.
Qed.


Lemma coin_dist2_nonneg ax ay c : 0 <= coin_dist2 ax ay c.
Proof.
  unfold coin_dist2. cbv zeta.
  pose proof (Rle_0_sqr (fst c - ax)). pose proof (Rle_0_sqr (snd c - ay)).
  unfold Rsqr in *. lra.
Qed.

(** C2, at a failing input.  Two coins, both well within pick-up range of
    the agent standing on the first one: the loop deletes the first,
    advances its index past the second, which has slid to index 0, and
    ends.  The second coin is still there. *)
Theorem collect_passes_over_next_coin :
  let coins := [(2, 2); (41 / 20, 2)] in
  let agent_radius := 1 / 10 in
  let coin_radius := 1 / 20 in
  (forall coin, In coin coins ->
     sqrt (coin_dist2 2 2 coin) < agent_radius + coin_radius) /\
  _collect_coins coins coin_radius 2 2 agent_radius = [(41 / 20, 2)].
Proof.
  cbv zeta. split.
  - intros coin [<- | [<- | []]]; unfold coin_dist2; cbn [fst snd].
    + replace ((2 - 2) * (2 - 2) + (2 - 2) * (2 - 2)) with 0 by lra.
      rewrite sqrt_0. lra.
    + rewrite (sqrt_lem_1 _ (1 / 20)); lra.
  - rewrite _collect_coins_scan. cbn [scan]. unfold near, coin_dist2. cbn [fst snd].
    decide_cmp. reflexivity.
Qed.

(** ** The two per-cell checks, as functions of the position *)

Lemma _handle_bounding_collision_eq cell self :
  _handle_bounding_collision cell self =
  match kind self cell with
  | Skipped => (Return PyNone, self)
  | OutOfGrid => (Raise IndexError, self)
  | Solid =>
      let p := coord (agent (_level self)) in
      let p' := face_push cell (_agent_radius self) p in
      (Return (PyBool (changed p p')), set_coord p' self)
  end.
Proof.
  unfold _handle_bounding_collision, kind, cell_kind_of. run.
  destruct (out_of_bounds _ _ _); [reflexivity |].
  destruct (py_index _ _) as [row |]; run; [| reflexivity].
  destruct (py_index row _) as [v |]; run; [| reflexivity].
  destruct (v =? 0)%Z; run; reflexivity.
Qed.

Lemma _handle_corner_collision_eq cell self :
  _handle_corner_collision cell self =
  match kind self cell with
  | Skipped => (Return PyNone, self)
  | OutOfGrid => (Raise IndexError, self)
  | Solid =>
      let p := coord (agent (_level self)) in
      match corner_push cell (_agent_radius self) p with
      | Some p' => (Return (PyBool (changed p p')), set_coord p' self)
      | None => (Raise ZeroDivisionError, self)
      end
  end.
Proof.
  unfold _handle_corner_collision, kind, cell_kind_of. run.
  destruct (out_of_bounds _ _ _); [reflexivity |].
  destruct (py_index _ _) as [row |]; run; [| reflexivity].
  destruct (py_index row _) as [v |]; run; [| reflexivity].
  destruct (v =? 0)%Z; run; [reflexivity |].
  unfold corner_push, corner_dist2, nearest_corner. cbn [fst snd].
  destruct (Rltb _ _); run; [| reflexivity].
  destruct (Rneqb (sqrt _) 0); run; reflexivity.
Qed.

(** ** The order of the two passes *)

(** C7.  One run of collision resolution is the four face checks, in the
    order of [check_cells], each from the state the one before left, and
    only then the four corner checks, the first of them starting from the
    state the last face check left.  The four cells are those around the
    position the run started from; they are not recomputed in between. *)
Theorem handle_collision_face_pass_then_corner_pass (self : Controller) :
  let x := py_round (fst (coord (agent (_level self)))) in
  let y := py_round (snd (coord (agent (_level self)))) in
  let c1 := ((x - 1)%Z, (y - 1)%Z) in
  let c2 := ((x - 1)%Z, y) in
  let c3 := (x, y) in
  let c4 := (x, (y - 1)%Z) in
  _handle_collision self =
    (f1 <- _handle_bounding_collision c1 ;;
     f2 <- _handle_bounding_collision c2 ;;
     f3 <- _handle_bounding_collision c3 ;;
     f4 <- _handle_bounding_collision c4 ;;
     k1 <- _handle_corner_collision c1 ;;
     k2 <- _handle_corner_collision c2 ;;
     k3 <- _handle_corner_collision c3 ;;
     k4 <- _handle_corner_collision c4 ;;
     ret (truthy f1 || truthy f2 || truthy f3 || truthy f4 ||
          truthy k1 || truthy k2 || truthy k3 || truthy k4)) self
  /\
  forall b self_f,
    for_cells _handle_bounding_collision [c1; c2; c3; c4] false self
      = (Return b, self_f) ->
    _handle_collision self
      = for_cells _handle_corner_collision [c1; c2; c3; c4] b self_f.
Proof.
  cbv zeta. split.
  - unfold _handle_collision, check_cells_of. cbn [for_cells].
    cbv beta iota delta [bind gets ret].
    repeat match goal with
    | |- context [_handle_bounding_collision ?c ?s] =>
        destruct (_handle_bounding_collision c s) as [[[| []] | ?] ?];
        cbn [truthy orb]; try reflexivity
    | |- context [_handle_corner_collision ?c ?s] =>
        destruct (_handle_corner_collision c s) as [[[| []] | ?] ?];
        cbn [truthy orb]; try reflexivity
    end.
  - intros b self_f H. unfold _handle_collision, check_cells_of.
    cbv beta iota delta [bind gets]. rewrite H. reflexivity.
Qed.

(** One iteration of either pass, by the kind of the cell. *)
Lemma face_pass_skipped cell rest b self :
  kind self cell = Skipped ->
  for_cells _handle_bounding_collision (cell :: rest) b self =
  for_cells _handle_bounding_collision rest b self.
Proof.
  intros H. cbn [for_cells]. unfold bind.
  rewrite _handle_bounding_collision_eq, H. reflexivity.
Qed.

Lemma face_pass_solid cell rest b self p' :
  kind self cell = Solid ->
  face_push cell (_agent_radius self) (coord (agent (_level self))) = p' ->
  for_cells _handle_bounding_collision (cell :: rest) b self =
  for_cells _handle_bounding_collision rest
    (if changed (coord (agent (_level self))) p' then true else b)
    (set_coord p' self).
Proof.
  intros H <-. cbn [for_cells]. unfold bind.
  rewrite _handle_bounding_collision_eq, H. reflexivity.
Qed.

Lemma corner_pass_skipped cell rest b self :
  kind self cell = Skipped ->
  for_cells _handle_corner_collision (cell :: rest) b self =
  for_cells _handle_corner_collision rest b self.
Proof.
  intros H. cbn [for_cells]. unfold bind.
  rewrite _handle_corner_collision_eq, H. reflexivity.
Qed.

Lemma corner_pass_solid cell rest b self p' :
  kind self cell = Solid ->
  corner_push cell (_agent_radius self) (coord (agent (_level self))) = Some p' ->
  for_cells _handle_corner_collision (cell :: rest) b self =
  for_cells _handle_corner_collision rest
    (if changed (coord (agent (_level self))) p' then true else b)
    (set_coord p' self).
Proof.
  intros H Hp. cbn [for_cells]. unfold bind.
  rewrite _handle_corner_collision_eq, H. cbv zeta. rewrite Hp. reflexivity.
Qed.

Lemma _handle_collision_unfold self :
  _handle_collision self =
  match for_cells _handle_bounding_collision
          (check_cells_of (coord (agent (_level self)))) false self with
  | (Return b, self_f) =>
      for_cells _handle_corner_collision
        (check_cells_of (coord (agent (_level self)))) b self_f
  | (Raise e, self_f) => (Raise e, self_f)
  end.
Proof. reflexivity. Qed.

Lemma check_cells_near (x y : Z) (p : R * R) :
  IZR x - 1 / 2 < fst p < IZR x + 1 / 2 ->
  IZR y - 1 / 2 < snd p < IZR y + 1 / 2 ->
  check_cells_of p = [(x - 1, y - 1); (x - 1, y); (x, y); (x, y - 1)]%Z.
Proof.
  intros Hx Hy. unfold check_cells_of.
  rewrite (py_round_near x), (py_round_near y) by assumption. reflexivity.
Qed.

(** Evaluate a push at a position given in numbers. *)
Ltac eval_push :=
  cbv beta iota zeta delta
    [face_push corner_push corner_dist2 nearest_corner changed fst snd];
  rewrite ?plus_IZR, ?minus_IZR;
  repeat (decide_cmp; cbv beta iota delta [andb orb fst snd];
          rewrite ?plus_IZR, ?minus_IZR).

Lemma for_cells_nil check b self : for_cells check [] b self = (Return b, self).
Proof. reflexivity. Qed.

(** ** Overlap of the agent's disc with a solid cell *)

Lemma kind_solid_in_bounds self cell :
  kind self cell = Solid ->
  (0 <= fst cell < snd (_grid_shape self))%Z /\
  (0 <= snd cell < fst (_grid_shape self))%Z.
Proof.
  unfold kind, cell_kind_of, out_of_bounds. intros H.
  destruct (fst cell <? 0)%Z eqn:E1; [discriminate |].
  destruct (snd cell <? 0)%Z eqn:E2; [discriminate |].
  destruct (fst cell >=? snd (_grid_shape self))%Z eqn:E3; [discriminate |].
  destruct (snd cell >=? fst (_grid_shape self))%Z eqn:E4; [discriminate |].
  lia.
Qed.

(** ** A two-by-two checkerboard *)

Ltac eval_max :=
  repeat match goal with
  | H : context [Rmax ?a ?b] |- _ =>
      first [ replace (Rmax a b) with a in H by (symmetry; apply Rmax_left; lra)
            | replace (Rmax a b) with b in H by (symmetry; apply Rmax_right; lra) ]
  | |- context [Rmax ?a ?b] =>
      first [ replace (Rmax a b) with a by (symmetry; apply Rmax_left; lra)
            | replace (Rmax a b) with b by (symmetry; apply Rmax_right; lra) ]
  end.

Lemma board_start_clear : clear (board (17 / 20, 13 / 10)).
Proof.
  intros [cx cy] [Hk Hd].
  destruct (kind_solid_in_bounds _ _ Hk) as [Hx Hy]. cbn in Hx, Hy.
  assert (Hc : (cx = 0 \/ cx = 1)%Z /\ (cy = 0 \/ cy = 1)%Z) by lia.
  destruct Hc as [[-> | ->] [-> | ->]]; try discriminate Hk;
    unfold box_dist2 in Hd; cbn [fst snd board __init__ _level agent coord _agent_radius] in Hd;
    rewrite ?plus_IZR in Hd; eval_max; lra.
Qed.

Lemma board_resolve_walked :
  _handle_collision (board (21 / 20, 13 / 10)) = (Return true, board (9 / 10, 9 / 10)).
Proof.
  rewrite _handle_collision_unfold.
  rewrite (check_cells_near 1 1) by (cbn; lra).
  rewrite face_pass_solid with (p' := (21 / 20, 13 / 10))
    by (try reflexivity; cbn; eval_push; f_equal; lra).
  rewrite face_pass_skipped by reflexivity.
  rewrite face_pass_solid with (p' := (9 / 10, 9 / 10))
    by (try reflexivity; cbn; eval_push; f_equal; lra).
  rewrite face_pass_skipped by reflexivity.
  rewrite for_cells_nil. cbv beta iota.
  rewrite corner_pass_solid with (p' := (9 / 10, 9 / 10))
    by (try reflexivity; cbn; eval_push; f_equal; lra).
  rewrite corner_pass_skipped by reflexivity.
  rewrite corner_pass_solid with (p' := (9 / 10, 9 / 10))
    by (try reflexivity; cbn; eval_push; f_equal; lra).
  rewrite corner_pass_skipped by reflexivity.
  rewrite for_cells_nil.
  f_equal. f_equal. cbn [coord agent _level set_coord set_agent board __init__].
  eval_push. reflexivity.
Qed.

Lemma board_resolve_again :
  _handle_collision (board (9 / 10, 9 / 10)) = (Return true, board (9 / 10, 9 / 10)).
Proof.
  rewrite _handle_collision_unfold.
  rewrite (check_cells_near 1 1) by (cbn; lra).
  rewrite face_pass_solid with (p' := (11 / 10, 11 / 10))
    by (try reflexivity; cbn; eval_push; f_equal; lra).
  rewrite face_pass_skipped by reflexivity.
  rewrite face_pass_solid with (p' := (9 / 10, 9 / 10))
    by (try reflexivity; cbn; eval_push; f_equal; lra).
  rewrite face_pass_skipped by reflexivity.
  rewrite for_cells_nil. cbv beta iota.
  rewrite corner_pass_solid with (p' := (9 / 10, 9 / 10))
    by (try reflexivity; cbn; eval_push; f_equal; lra).
  rewrite corner_pass_skipped by reflexivity.
  rewrite corner_pass_solid with (p' := (9 / 10, 9 / 10))
    by (try reflexivity; cbn; eval_push; f_equal; lra).
  rewrite corner_pass_skipped by reflexivity.
  rewrite for_cells_nil.
  f_equal. f_equal. cbn [coord agent _level set_coord set_agent board __init__].
  eval_push. reflexivity.
Qed.

(** C1, at a failing input.  On the checkerboard, with stride 0.2 and radius
    0.1, the agent stands in the open cell (0,1) at (0.85, 1.3), clear of
    every solid cell, heading 0.  [step(WalkForward)] takes it to
    (1.05, 1.3), inside the solid cell (1,1); the face check of that cell
    pushes it out on both axes at once, to (0.9, 0.9), which lies inside the
    solid cell (0,0), whose face check is already over; no corner check
    moves it.  The step ends with the agent's centre inside a solid cell. *)
Theorem step_ends_inside_solid_cell :
  let self := board (17 / 20, 13 / 10) in
  (0 < _stride self < 1 /\ 0 < _agent_radius self < 1 / 2) /\
  clear self /\
  step 0 1 2 0 self = (Return true, board (9 / 10, 9 / 10)) /\
  kind (board (9 / 10, 9 / 10)) (0, 0)%Z = Solid /\
  box_dist2 (0, 0)%Z (9 / 10, 9 / 10) = 0 /\
  overlaps (board (9 / 10, 9 / 10)) (0, 0)%Z.
Proof.
  cbv zeta. split; [cbn; lra |]. split; [apply board_start_clear |].
  assert (Hd : box_dist2 (0, 0)%Z (9 / 10, 9 / 10) = 0).
  { unfold box_dist2. cbn [fst snd]. rewrite ?plus_IZR. eval_max. lra. }
  split; [| split; [reflexivity | split; [exact Hd |]]].
  - rewrite step_walk_forward, _walk_unfold.
    cbn [board __init__ _level agent coord theta _stride fst snd].
    rewrite cos_0, sin_0.
    replace (17 / 20 + 1 / 5 * 1, 13 / 10 + 1 / 5 * 0) with (21 / 20, 13 / 10)
      by (f_equal; lra).
    change (set_coord (21 / 20, 13 / 10) _) with (board (21 / 20, 13 / 10)).
    unfold resolve_and_collect. run. rewrite board_resolve_walked.
    rewrite _collect_coins_scan. reflexivity.
  - split; [reflexivity |].
    change (coord (agent (_level (board (9 / 10, 9 / 10))))) with (9 / 10, 9 / 10).
    rewrite Hd. cbn. lra.
Qed.

(** C6, at a failing input.  The position (0.9, 0.9) is the outcome of a
    run of collision resolution, from (1.05, 1.3) on the checkerboard.
    Running the resolution once more from it reports a collision again: the
    two solid cells push the agent to (1.1, 1.1) and back. *)
Theorem resolution_again_reports_collision :
  _handle_collision (board (21 / 20, 13 / 10))
    = (Return true, board (9 / 10, 9 / 10)) /\
  _handle_collision (board (9 / 10, 9 / 10))
    = (Return true, board (9 / 10, 9 / 10)) /\
  fst (_handle_collision (board (9 / 10, 9 / 10))) <> Return false.
Proof.
  split; [apply board_resolve_walked |].
  split; [apply board_resolve_again |].
  rewrite board_resolve_again. cbn [fst]. discriminate.
Qed.

(** ** The zero-distance corner *)

Lemma corner_dist2_zero cell p :
  corner_dist2 cell p = 0 ->
  fst p = IZR (fst (nearest_corner cell p)) /\
  snd p = IZR (snd (nearest_corner cell p)).
Proof.
  unfold corner_dist2. cbv zeta.
  set (vx := fst p - _). set (vy := snd p - _). intros H.
  destruct (Rplus_sqr_eq_0 vx vy H) as [Hvx Hvy]. unfold vx, vy in *. lra.
Qed.


Lemma corner_push_zero_distance cell ar p :
  corner_dist2 cell p = 0 ->
  corner_push cell ar p = if Rneqb ar 0 then None else Some (fst p, snd p).
Proof.
  intros H. unfold corner_push. cbv zeta. rewrite H, sqrt_0, Rneqb_refl.
  destruct (Rneqb ar 0) eqn:E; reflect_cmp.
  - replace (Rltb 0 (ar * ar)) with true; [reflexivity |].
    symmetry. apply Rltb_true. nra.
  - subst ar. replace (Rltb 0 (0 * 0)) with false; [reflexivity |].
    symmetry. apply Rltb_false. lra.
Qed.

Lemma nearest_corner_cases cell p :
  (fst (nearest_corner cell p) = fst cell \/
   fst (nearest_corner cell p) = (fst cell + 1)%Z) /\
  (snd (nearest_corner cell p) = snd cell \/
   snd (nearest_corner cell p) = (snd cell + 1)%Z).
Proof.
  unfold nearest_corner. cbv zeta. cbn [fst snd].
  split; [destruct (Rleb (fst p) _) | destruct (Rleb (snd p) _)]; auto.
Qed.

Lemma board_corner_distance_zero : corner_dist2 (0, 0)%Z (1, 1) = 0.
Proof.
  unfold corner_dist2, nearest_corner. cbn [fst snd]. rewrite ?plus_IZR.
  decide_cmp. cbn [fst snd]. rewrite ?plus_IZR. lra.
Qed.

(** In exact arithmetic, the check called directly.  On the checkerboard
    the agent stands at (1, 1), the top right corner of the solid cell
    (0,0) and the corner of it nearest to the agent.  The corner check of
    that cell does not skip: it raises ZeroDivisionError. *)
Lemma board_corner_check_raises :
  kind (board (1, 1)) (0, 0)%Z = Solid /\
  corner_dist2 (0, 0)%Z (coord (agent (_level (board (1, 1))))) = 0 /\
  _handle_corner_collision (0, 0)%Z (board (1, 1))
    = (Raise ZeroDivisionError, board (1, 1)) /\
  forall r self', _handle_corner_collision (0, 0)%Z (board (1, 1))
    <> (Return r, self').
Proof.
  assert (H : _handle_corner_collision (0, 0)%Z (board (1, 1))
              = (Raise ZeroDivisionError, board (1, 1))).
  { rewrite _handle_corner_collision_eq.
    change (kind (board (1, 1)) (0, 0)%Z) with Solid. cbv beta iota zeta.
    change (coord (agent (_level (board (1, 1))))) with (1, 1).
    rewrite (corner_push_zero_distance _ _ _ board_corner_distance_zero).
    change (_agent_radius (board (1, 1))) with (1 / 10).
    decide_cmp. reflexivity. }
  split; [reflexivity |]. split; [exact board_corner_distance_zero |].
  split; [exact H |]. intros r self'. rewrite H. discriminate.
Qed.

(** ** Instances on the checkerboard *)

(** C4, refuted as stated.  The value 7 is none of the actions 0, 1 and 2,
    and [step(7)] raises nothing: it returns [False]. *)
Lemma step_unknown_action_returns :
  ~ In 7%Z (ACTIONS 0 1 2) /\
  step 0 1 2 7 (board (17 / 20, 13 / 10))
    = (Return false, board (17 / 20, 13 / 10)) /\
  forall e self', step 0 1 2 7 (board (17 / 20, 13 / 10)) <> (Raise e, self').
Proof.
  assert (H : step 0 1 2 7 (board (17 / 20, 13 / 10))
              = (Return false, board (17 / 20, 13 / 10))).
  { apply step_unrecognized. repeat split; discriminate. }
  split; [cbn; intuition discriminate |].
  split; [exact H |]. intros e self'. rewrite H. discriminate.
Qed.

Lemma step_unrecognized_no_error_witness :
  (forall e, fst (step 0 1 2 7 (board (17 / 20, 13 / 10))) <> Raise e) /\
  fst (step 0 1 2 7 (board (17 / 20, 13 / 10))) = Return false.
Proof.
  apply (step_unrecognized_no_error 0 1 2 7 (board (17 / 20, 13 / 10))).
  repeat split; discriminate.
Defined.

Lemma step_unrecognized_frame_witness :
  let (result, self') := step 0 1 2 7 (board (17 / 20, 13 / 10)) in
  result = Return false /\
  coord (agent (_level self')) = (17 / 20, 13 / 10) /\
  theta (agent (_level self')) = 0 /\
  coins (_level self') = [] /\
  grid (_level self') = checkerboard /\
  self' = board (17 / 20, 13 / 10).
Proof.
  apply (step_unrecognized_frame 0 1 2 7 (board (17 / 20, 13 / 10))).
  repeat split; discriminate.
Defined.

Lemma step_moves_along_heading_witness :
  step 0 1 2 1 (board (17 / 20, 13 / 10)) =
    resolve_and_collect
      (set_coord (17 / 20 + 1 / 10 * cos (0 + 1 / 2),
                  13 / 10 + 1 / 10 * sin (0 + 1 / 2))
         (set_theta (0 + 1 / 2) (board (17 / 20, 13 / 10)))) /\
  theta (agent (_level (snd (step 0 1 2 1 (board (17 / 20, 13 / 10))))))
    = 0 + 1 / 2.
Proof.
  apply (step_moves_along_heading 0 1 2 (board (17 / 20, 13 / 10))).
  repeat split; discriminate.
Defined.

Lemma turn_left_then_right_heading_witness :
  theta (agent (_level
    (snd (step 0 1 2 2 (snd (step 0 1 2 1 (board (17 / 20, 13 / 10)))))))) = 0.
Proof.
  apply (turn_left_then_right_heading 0 1 2 (board (17 / 20, 13 / 10))).
  repeat split; discriminate.
Defined.

(** ** Resolution from a position clear of the solid cells *)

Lemma box_axis_small (lo x ar : R) :
  0 < ar -> lo - x < ar -> x - (lo + 1) < ar ->
  0 <= Rmax 0 (Rmax (lo - x) (x - (lo + 1))) < ar.
Proof.
  intros Har H1 H2. split; [apply Rmax_l |].
  apply Rmax_lub_lt; [exact Har | apply Rmax_lub_lt; assumption].
Qed.

Lemma box_axis_inside (lo x : R) :
  lo <= x <= lo + 1 -> Rmax 0 (Rmax (lo - x) (x - (lo + 1))) = 0.
Proof.
  intros H. apply Rmax_left. apply Rmax_lub; lra.
Qed.

(** Where a face check would push, the disc reaches into the cell. *)
Lemma face_push_clear cell ar p :
  0 < ar -> ar * ar <= box_dist2 cell p ->
  face_push cell ar p = (fst p, snd p).
Proof.
  intros Har Hc. unfold box_dist2 in Hc. cbv zeta in Hc.
  rewrite !plus_IZR in Hc.
  unfold face_push. cbv zeta. cbn [fst snd]. rewrite !plus_IZR. unfold Rgtb.
  f_equal.
  - destruct (Rleb (IZR (snd cell)) (snd p) && _) eqn:Eb; [| reflexivity].
    reflect_cmp.
    rewrite (box_axis_inside (IZR (snd cell)) (snd p)) in Hc by lra.
    destruct (Rltb _ (fst p) && _) eqn:E1; reflect_cmp.
    + exfalso.
      pose proof (box_axis_small (IZR (fst cell)) (fst p) ar Har) as Hs.
      assert (Hs' := Hs ltac:(lra) ltac:(lra)). nra.
    + destruct (Rltb (fst p) _ && _) eqn:E2; [| reflexivity]. reflect_cmp.
      exfalso.
      pose proof (box_axis_small (IZR (fst cell)) (fst p) ar Har) as Hs.
      assert (Hs' := Hs ltac:(lra) ltac:(lra)). nra.
  - destruct (Rleb (IZR (fst cell)) (fst p) && _) eqn:Eb; [| reflexivity].
    reflect_cmp.
    rewrite (box_axis_inside (IZR (fst cell)) (fst p)) in Hc by lra.
    destruct (Rltb _ (snd p) && _) eqn:E1; reflect_cmp.
    + exfalso.
      pose proof (box_axis_small (IZR (snd cell)) (snd p) ar Har) as Hs.
      assert (Hs' := Hs ltac:(lra) ltac:(lra)). nra.
    + destruct (Rltb (snd p) _ && _) eqn:E2; [| reflexivity]. reflect_cmp.
      exfalso.
      pose proof (box_axis_small (IZR (snd cell)) (snd p) ar Har) as Hs.
      assert (Hs' := Hs ltac:(lra) ltac:(lra)). nra.
Qed.

Lemma box_axis_le_corner (lo x : R) (n : Z) :
  IZR n = lo \/ IZR n = lo + 1 ->
  let d := Rmax 0 (Rmax (lo - x) (x - (lo + 1))) in
  d * d <= (x - IZR n) * (x - IZR n).
Proof.
  intros Hn. cbv zeta. unfold Rmax.
  destruct (Rle_dec (lo - x) (x - (lo + 1)));
    destruct (Rle_dec 0 _); destruct Hn as [-> | ->]; nra.
Qed.

Lemma box_dist2_le_corner_dist2 cell p : box_dist2 cell p <= corner_dist2 cell p.
Proof.
  unfold box_dist2, corner_dist2. cbv zeta.
  destruct (nearest_corner_cases cell p) as [Cx Cy].
  rewrite !plus_IZR.
  pose proof (box_axis_le_corner (IZR (fst cell)) (fst p)
                (fst (nearest_corner cell p))) as Hx.
  pose proof (box_axis_le_corner (IZR (snd cell)) (snd p)
                (snd (nearest_corner cell p))) as Hy.
  cbv zeta in Hx, Hy.
  assert (Hx' := Hx ltac:(destruct Cx as [-> | ->]; rewrite ?plus_IZR; auto)).
  assert (Hy' := Hy ltac:(destruct Cy as [-> | ->]; rewrite ?plus_IZR; auto)).
  lra.
Qed.

Lemma corner_push_clear cell ar p :
  ar * ar <= box_dist2 cell p ->
  corner_push cell ar p = Some (fst p, snd p).
Proof.
  intros Hc. unfold corner_push. cbv zeta.
  pose proof (box_dist2_le_corner_dist2 cell p).
  replace (Rltb (corner_dist2 cell p) (ar * ar)) with false; [reflexivity |].
  symmetry. apply Rltb_false. lra.
Qed.

Lemma set_coord_eta self :
  set_coord (fst (coord (agent (_level self))), snd (coord (agent (_level self))))
    self = self.
Proof. destruct self as [[g [[x y] t] cs] gs s st tu ar cr]. reflexivity. Qed.

Lemma changed_eta p : changed p (fst p, snd p) = false.
Proof. unfold changed. cbn [fst snd]. rewrite !Rneqb_refl. reflexivity. Qed.

Lemma face_pass_clear cells :
  forall b self,
    0 < _agent_radius self -> grid_matches_shape self ->
    (forall cell, In cell cells -> ~ overlaps self cell) ->
    for_cells _handle_bounding_collision cells b self = (Return b, self).
Proof.
  induction cells as [| c rest IH]; intros b self Har Hg Hc; [reflexivity |].
  assert (Hrest : forall cell, In cell rest -> ~ overlaps self cell)
    by (intros cell Hin; apply Hc; right; exact Hin).
  destruct (kind self c) eqn:Hk.
  - rewrite face_pass_skipped by exact Hk. apply IH; assumption.
  - assert (Hfar : _agent_radius self * _agent_radius self
                   <= box_dist2 c (coord (agent (_level self)))).
    { apply Rnot_lt_le. intros Hlt. apply (Hc c); [left; reflexivity |].
      split; assumption. }
    rewrite (face_pass_solid c rest b self _ Hk (face_push_clear _ _ _ Har Hfar)).
    rewrite changed_eta, set_coord_eta. apply IH; assumption.
  - destruct (Hg c Hk).
Qed.

Lemma corner_pass_clear cells :
  forall b self,
    grid_matches_shape self ->
    (forall cell, In cell cells -> ~ overlaps self cell) ->
    for_cells _handle_corner_collision cells b self = (Return b, self).
Proof.
  induction cells as [| c rest IH]; intros b self Hg Hc; [reflexivity |].
  assert (Hrest : forall cell, In cell rest -> ~ overlaps self cell)
    by (intros cell Hin; apply Hc; right; exact Hin).
  destruct (kind self c) eqn:Hk.
  - rewrite corner_pass_skipped by exact Hk. apply IH; assumption.
  - assert (Hfar : _agent_radius self * _agent_radius self
                   <= box_dist2 c (coord (agent (_level self)))).
    { apply Rnot_lt_le. intros Hlt. apply (Hc c); [left; reflexivity |].
      split; assumption. }
    rewrite (corner_pass_solid c rest b self _ Hk (corner_push_clear _ _ _ Hfar)).
    rewrite changed_eta, set_coord_eta. apply IH; assumption.
  - destruct (Hg c Hk).
Qed.

(** From a position whose disc reaches into no solid cell, collision
    resolution moves nothing and reports no collision: on such positions
    resolution is idempotent. *)
Lemma _handle_collision_clear self :
  0 < _agent_radius self -> grid_matches_shape self -> clear self ->
  _handle_collision self = (Return false, self).
Proof.
  intros Har Hg Hc. rewrite _handle_collision_unfold.
  rewrite face_pass_clear by (try assumption; intros cell _; apply Hc).
  apply corner_pass_clear; [assumption | intros cell _; apply Hc].
Qed.

(** * Further properties of the controller *)

(** ** What a step leaves alone *)

Lemma same_setting_refl self : same_setting self self.
Proof. repeat split. Qed.

Lemma same_setting_trans s1 s2 s3 :
  same_setting s1 s2 -> same_setting s2 s3 -> same_setting s1 s3.
Proof.
  unfold same_setting. intros H1 H2.
  repeat match goal with H : _ /\ _ |- _ => destruct H end.
  repeat split; congruence.
Qed.

Lemma resolve_and_collect_setting self :
  same_setting self (snd (resolve_and_collect self)).
Proof.
  destruct (resolve_and_collect_frame self) as (xy & cs & ->). repeat split.
Qed.

Lemma _walk_setting t d self : same_setting self (snd (_walk t d self)).
Proof.
  rewrite _walk_unfold.
  eapply same_setting_trans; [| apply resolve_and_collect_setting].
  repeat split.
Qed.

(** What [step] does, for each way the comparisons can go. *)
Lemma step_cases (wf tl tr action : Z) (self : Controller) :
  step wf tl tr action self =
    _walk (theta (agent (_level self))) (_stride self) self \/
  step wf tl tr action self =
    _walk (theta (agent (_level self)) + _turn self) (_stride_on_turn self)
      (set_theta (theta (agent (_level self)) + _turn self) self) \/
  step wf tl tr action self =
    _walk (theta (agent (_level self)) - _turn self) (_stride_on_turn self)
      (set_theta (theta (agent (_level self)) - _turn self) self) \/
  step wf tl tr action self = (Return false, self).
Proof.
  unfold step.
  destruct (action =? wf)%Z; [left; reflexivity |].
  destruct (action =? tl)%Z; [right; left; reflexivity |].
  destruct (action =? tr)%Z; [right; right; left; reflexivity |].
  right; right; right; reflexivity.
Qed.

Lemma step_setting (wf tl tr action : Z) (self : Controller) :
  same_setting self (snd (step wf tl tr action self)).
Proof.
  destruct (step_cases wf tl tr action self) as [-> | [-> | [-> | ->]]].
  - apply _walk_setting.
  - eapply same_setting_trans; [| apply _walk_setting]. repeat split.
  - eapply same_setting_trans; [| apply _walk_setting]. repeat split.
  - apply same_setting_refl.
Qed.

(** X1.  Whatever the action and whether it returns or raises, [step]
    assigns nothing but the agent's position and heading and the coin
    list: the grid, the recorded grid shape, both strides, the turn angle
    and both radii are afterwards what they were. *)
Theorem step_keeps_setting (wf tl tr action : Z) (self : Controller) :
  same_setting self (snd (step wf tl tr action self)).
Proof. apply step_setting. Qed.

(** ** Coins are only ever taken out *)

Lemma subseq_refl {A} (l : list A) : subseq l l.
Proof. induction l; constructor; assumption. Qed.


Lemma scan_subseq t2 ax ay coins :
  forall passed_over, subseq (scan t2 ax ay passed_over coins) coins.
Proof.
  induction coins as [| c rest IH]; intros po; cbn [scan]; [constructor |].
  destruct po; [constructor; apply IH |].
  destruct (near t2 ax ay c); constructor; apply IH.
Qed.

Lemma _collect_coins_subseq coins cr ax ay ar :
  subseq (_collect_coins coins cr ax ay ar) coins.
Proof. rewrite _collect_coins_scan. apply scan_subseq. Qed.

Lemma resolve_and_collect_coins self :
  subseq (coins (_level (snd (resolve_and_collect self)))) (coins (_level self)).
Proof.
  unfold resolve_and_collect. run.
  destruct (_handle_collision_moved self) as [xy Hxy].
  destruct (_handle_collision self) as [[b | e] s1]; cbn [snd] in *; subst s1.
  - cbn [set_coins _level coins]. apply _collect_coins_subseq.
  - apply subseq_refl.
Qed.

(** X2.  Whatever the action, the coin list after [step] is the list
    before with some coins taken out: no coin is added, changed or moved
    to another place in the list. *)
Theorem step_only_removes_coins (wf tl tr action : Z) (self : Controller) :
  subseq (coins (_level (snd (step wf tl tr action self)))) (coins (_level self)).
Proof.
  destruct (step_cases wf tl tr action self) as [-> | [-> | [-> | ->]]];
    rewrite ?_walk_unfold.
  - exact (resolve_and_collect_coins (set_coord _ self)).
  - exact (resolve_and_collect_coins (set_coord _ (set_theta _ self))).
  - exact (resolve_and_collect_coins (set_coord _ (set_theta _ self))).
  - apply subseq_refl.
Qed.










(** ** Grids that agree with their recorded shape *)

Lemma py_index_in_range {A} (l : list A) (i : Z) :
  (0 <= i < Z.of_nat (length l))%Z ->
  exists a, py_index l i = Some a /\ In a l.
Proof.
  intros Hi. unfold py_index.
  replace (i <? 0)%Z with false by (symmetry; apply Z.ltb_ge; lia).
  destruct (nth_error l (Z.to_nat i)) as [a |] eqn:E.
  - exists a. split; [reflexivity | eapply nth_error_In; exact E].
  - apply nth_error_None in E. lia.
Qed.

Lemma well_formed_matches_shape self :
  well_formed self -> grid_matches_shape self.
Proof.
  intros [Hs Hr] [cx cy] Hk. unfold kind, cell_kind_of in Hk.
  rewrite Hs in Hk. unfold shape, out_of_bounds in Hk. cbn [fst snd] in Hk.
  destruct (cx <? 0)%Z eqn:E1; [discriminate |].
  destruct (cy <? 0)%Z eqn:E2; [discriminate |].
  destruct (cx >=? _)%Z eqn:E3; [discriminate |].
  destruct (cy >=? _)%Z eqn:E4; [discriminate |].
  cbn [orb] in Hk.
  destruct (py_index_in_range (grid (_level self))
              (Z.of_nat (length (grid (_level self))) - cy - 1))
    as (row & Hrow & Hin); [lia |].
  rewrite Hrow in Hk.
  destruct (py_index_in_range row cx) as (v & Hv & _).
  { rewrite (Hr row Hin). lia. }
  rewrite Hv in Hk. destruct (v =? 0)%Z; discriminate.
Qed.

Lemma __init___well_formed stride stride_on_turn turn ar cr level :
  rectangular (grid level) ->
  well_formed (__init__ stride stride_on_turn turn ar cr level).
Proof. intros H. split; [reflexivity | exact H]. Qed.

Lemma well_formed_same_setting self self' :
  same_setting self self' -> well_formed self -> well_formed self'.
Proof.
  intros (Hg & Hs & _) [H1 H2]. unfold well_formed. rewrite Hg, Hs.
  split; assumption.
Qed.

Lemma checkerboard_rectangular : rectangular checkerboard.
Proof. intros row [<- | [<- | []]]; reflexivity. Qed.

Lemma board_well_formed p : well_formed (board p).
Proof. apply __init___well_formed, checkerboard_rectangular. Qed.

(** On the checkerboard, a position a radius away from both solid cells
    is clear. *)
Lemma board_clear p :
  1 / 100 <= box_dist2 (0, 0)%Z p ->
  1 / 100 <= box_dist2 (1, 1)%Z p ->
  clear (board p).
Proof.
  intros H00 H11 [cx cy] [Hk Hd].
  destruct (kind_solid_in_bounds _ _ Hk) as [Hx Hy]. cbn in Hx, Hy.
  assert (Hc : (cx = 0 \/ cx = 1)%Z /\ (cy = 0 \/ cy = 1)%Z) by lia.
  change (coord (agent (_level (board p)))) with p in Hd.
  change (_agent_radius (board p)) with (1 / 10) in Hd.
  destruct Hc as [[-> | ->] [-> | ->]]; try discriminate Hk; lra.
Qed.

(** ** Resolution that reports nothing has moved nothing *)

Lemma changed_false p p' : changed p p' = false -> p' = p.
Proof.
  unfold changed. intros H. apply orb_false_iff in H. destruct H as [H1 H2].
  apply Rneqb_false in H1, H2. destruct p, p'. cbn [fst snd] in *. congruence.
Qed.

Lemma _handle_bounding_collision_quiet cell self r self' :
  _handle_bounding_collision cell self = (Return r, self') ->
  truthy r = false -> self' = self.
Proof.
  rewrite _handle_bounding_collision_eq.
  destruct (kind self cell); cbv zeta; intros [= <- <-]; [reflexivity |].
  intros H. cbn [truthy] in H. apply changed_false in H.
  rewrite H. apply set_coord_same.
Qed.

Lemma _handle_corner_collision_quiet cell self r self' :
  _handle_corner_collision cell self = (Return r, self') ->
  truthy r = false -> self' = self.
Proof.
  rewrite _handle_corner_collision_eq.
  destruct (kind self cell); cbv zeta; [intros [= <- <-]; reflexivity | |].
  - destruct (corner_push _ _ _) as [p' |]; [| discriminate].
    intros [= <- <-] H. cbn [truthy] in H. apply changed_false in H.
    rewrite H. apply set_coord_same.
  - discriminate.
Qed.

Lemma for_cells_quiet check :
  (forall cell self r self',
     check cell self = (Return r, self') -> truthy r = false -> self' = self) ->
  forall cells b self self',
    for_cells check cells b self = (Return false, self') ->
    b = false /\ self' = self.
Proof.
  intros Hq cells. induction cells as [| c rest IH]; intros b self self' H.
  - rewrite for_cells_nil in H. injection H as -> ->. split; reflexivity.
  - cbn [for_cells] in H. unfold bind in H.
    destruct (check c self) as [[r | e] s1] eqn:Ec; [| discriminate].
    destruct (IH _ _ _ H) as [Hb ->].
    destruct (truthy r) eqn:Er; [discriminate |].
    split; [exact Hb | exact (Hq _ _ _ _ Ec Er)].
Qed.

Lemma _handle_collision_quiet (self self' : Controller) :
  _handle_collision self = (Return false, self') -> self' = self.
Proof.
  rewrite _handle_collision_unfold.
  destruct (for_cells _handle_bounding_collision _ false self)
    as [[b | e] self_f] eqn:Ef; [| discriminate].
  intros Hc.
  destruct (for_cells_quiet _ _handle_corner_collision_quiet _ _ _ _ Hc) as [-> ->].
  destruct (for_cells_quiet _ _handle_bounding_collision_quiet _ _ _ _ Ef) as [_ ->].
  reflexivity.
Qed.

(** X6.  When [_handle_collision] returns [False], it has left the
    controller exactly as it found it: no check has moved the agent. *)
Theorem resolution_reporting_nothing_moves_nothing (self self' : Controller) :
  _handle_collision self = (Return false, self') -> self' = self.
Proof. apply _handle_collision_quiet. Qed.

Lemma board_quiet_position : clear (board (7 / 10, 3 / 2)).
Proof.
  apply board_clear; unfold box_dist2; cbn [fst snd]; rewrite ?plus_IZR;
    eval_max; lra.
Qed.

Lemma board_quiet_resolution :
  _handle_collision (board (7 / 10, 3 / 2)) = (Return false, board (7 / 10, 3 / 2)).
Proof.
  apply _handle_collision_clear.
  - cbn. lra.
  - apply well_formed_matches_shape, board_well_formed.
  - apply board_quiet_position.
Qed.

Lemma resolution_reporting_nothing_moves_nothing_witness :
  board (7 / 10, 3 / 2) = board (7 / 10, 3 / 2).
Proof.
  apply (resolution_reporting_nothing_moves_nothing
           (board (7 / 10, 3 / 2)) (board (7 / 10, 3 / 2))).
  apply board_quiet_resolution.
Defined.

Lemma resolve_and_collect_quiet self self' :
  resolve_and_collect self = (Return false, self') ->
  coord (agent (_level self')) = coord (agent (_level self)).
Proof.
  unfold resolve_and_collect. run.
  destruct (_handle_collision self) as [[b | e] s1] eqn:E; [| discriminate].
  intros [= -> <-].
  rewrite (_handle_collision_quiet _ _ E). reflexivity.
Qed.

(** X7.  When [_walk] returns [False], the agent is exactly where the
    move put it: at the old position plus
    (distance cos theta, distance sin theta). *)
Theorem walk_reporting_nothing_is_the_plain_move
    (t d : R) (self self' : Controller) :
  _walk t d self = (Return false, self') ->
  coord (agent (_level self')) =
    (fst (coord (agent (_level self))) + d * cos t,
     snd (coord (agent (_level self))) + d * sin t).
Proof.
  rewrite _walk_unfold. intros H.
  rewrite (resolve_and_collect_quiet _ _ H). reflexivity.
Qed.

Lemma walk_reporting_nothing_is_the_plain_move_witness :
  coord (agent (_level (board (7 / 10, 3 / 2)))) =
    (fst (coord (agent (_level (board (1 / 2, 3 / 2))))) + 1 / 5 * cos 0,
     snd (coord (agent (_level (board (1 / 2, 3 / 2))))) + 1 / 5 * sin 0).
Proof.
  apply (walk_reporting_nothing_is_the_plain_move 0 (1 / 5) (board (1 / 2, 3 / 2))).
  rewrite _walk_unfold.
  cbn [board __init__ _level agent coord fst snd].
  rewrite cos_0, sin_0.
  replace (1 / 2 + 1 / 5 * 1, 3 / 2 + 1 / 5 * 0) with (7 / 10, 3 / 2)
    by (f_equal; lra).
  change (set_coord (7 / 10, 3 / 2) _) with (board (7 / 10, 3 / 2)).
  unfold resolve_and_collect. run. rewrite board_quiet_resolution.
  rewrite _collect_coins_scan. reflexivity.
Defined.

(** ** The four candidate cells *)

(** [round] is never more than half a unit off. *)
Lemma py_round_error (x : R) :
  IZR (py_round x) - 1 / 2 <= x <= IZR (py_round x) + 1 / 2.
Proof.
  unfold py_round. rewrite frac_part_eq.
  pose proof (Int_part_bounds x) as [Hf1 Hf2].
  set (f := Int_part x) in *.
  destruct (Rlt_dec (x - IZR f) (1 / 2)); [lra |].
  destruct (Rlt_dec (1 / 2) (x - IZR f)); [rewrite plus_IZR; lra |].
  destruct (Z.even f); rewrite ?plus_IZR; lra.
Qed.

Lemma box_axis_reach (lo x ar : R) :
  0 < ar ->
  Rmax 0 (Rmax (lo - x) (x - (lo + 1))) < ar ->
  lo - x < ar /\ x - (lo + 1) < ar.
Proof.
  intros Har H.
  pose proof (Rmax_r 0 (Rmax (lo - x) (x - (lo + 1)))).
  pose proof (Rmax_l (lo - x) (x - (lo + 1))).
  pose proof (Rmax_r (lo - x) (x - (lo + 1))).
  lra.
Qed.

Lemma box_axis_nonneg (lo x : R) : 0 <= Rmax 0 (Rmax (lo - x) (x - (lo + 1))).
Proof. apply Rmax_l. Qed.

Lemma candidate_axis (c n : Z) (x ar : R) :
  0 < ar <= 1 / 2 ->
  IZR n - 1 / 2 <= x <= IZR n + 1 / 2 ->
  IZR c - x < ar -> x - (IZR c + 1) < ar ->
  (c = n - 1 \/ c = n)%Z.
Proof.
  intros Har Hn H1 H2.
  assert (A : IZR c < IZR (n + 1)) by (rewrite plus_IZR; lra).
  assert (B : IZR (n - 2) < IZR c) by (rewrite minus_IZR; lra).
  apply lt_IZR in A, B. lia.
Qed.

(** X8.  With a radius of at most half a cell, the four cells
    [_handle_collision] looks at are all the cells the agent's disc can
    reach into: a cell at squared distance less than radius^2 from the
    agent's centre is one of the four. *)
Theorem candidates_cover_the_disc (self : Controller) (cell : Z * Z) :
  0 < _agent_radius self <= 1 / 2 ->
  box_dist2 cell (coord (agent (_level self)))
    < _agent_radius self * _agent_radius self ->
  In cell (check_cells_of (coord (agent (_level self)))).
Proof.
  intros Har Hd. destruct cell as [cx cy].
  set (p := coord (agent (_level self))) in *. set (ar := _agent_radius self) in *.
  unfold box_dist2 in Hd. cbv zeta in Hd. cbn [fst snd] in Hd.
  rewrite !plus_IZR in Hd.
  pose proof (box_axis_nonneg (IZR cx) (fst p)) as Hx0.
  pose proof (box_axis_nonneg (IZR cy) (snd p)) as Hy0.
  set (dx := Rmax 0 (Rmax (IZR cx - fst p) (fst p - (IZR cx + 1)))) in *.
  set (dy := Rmax 0 (Rmax (IZR cy - snd p) (snd p - (IZR cy + 1)))) in *.
  assert (Hdx : dx < ar) by nra.
  assert (Hdy : dy < ar) by nra.
  destruct (box_axis_reach _ _ _ (proj1 Har) Hdx) as [X1 X2].
  destruct (box_axis_reach _ _ _ (proj1 Har) Hdy) as [Y1 Y2].
  pose proof (candidate_axis cx _ _ _ Har (py_round_error (fst p)) X1 X2) as Cx.
  pose proof (candidate_axis cy _ _ _ Har (py_round_error (snd p)) Y1 Y2) as Cy.
  unfold check_cells_of. cbv zeta. cbn [In].
  destruct Cx as [-> | ->], Cy as [-> | ->]; auto.
Qed.

Lemma candidates_cover_the_disc_witness :
  In (1, 1)%Z (check_cells_of (coord (agent (_level (board (21 / 20, 13 / 10)))))).
Proof.
  apply (candidates_cover_the_disc (board (21 / 20, 13 / 10)) (1, 1)%Z).
  - cbn. lra.
  - change (coord (agent (_level (board (21 / 20, 13 / 10)))))
      with (21 / 20, 13 / 10).
    change (_agent_radius (board (21 / 20, 13 / 10))) with (1 / 10).
    unfold box_dist2. cbn [fst snd]. rewrite ?plus_IZR. eval_max. lra.
Defined.

(** X9.  If the agent's disc reaches into none of the four candidate
    cells, [_handle_collision] returns [False] and changes nothing (the
    grid agreeing with its recorded shape, and the radius positive). *)
Theorem resolution_idle_when_candidates_clear (self : Controller) :
  0 < _agent_radius self ->
  well_formed self ->
  (forall cell, In cell (check_cells_of (coord (agent (_level self)))) ->
     ~ overlaps self cell) ->
  _handle_collision self = (Return false, self).
Proof.
  intros Har Hw Hc. apply well_formed_matches_shape in Hw.
  rewrite _handle_collision_unfold.
  rewrite face_pass_clear by assumption.
  apply corner_pass_clear; assumption.
Qed.

Lemma resolution_idle_when_candidates_clear_witness :
  _handle_collision (board (7 / 10, 3 / 2)) = (Return false, board (7 / 10, 3 / 2)).
Proof.
  apply (resolution_idle_when_candidates_clear (board (7 / 10, 3 / 2))).
  - cbn. lra.
  - apply board_well_formed.
  - intros cell _. apply board_quiet_position.
Defined.

(** ** Grid lookups stay within the grid *)

Lemma grid_matches_shape_set_coord xy self :
  grid_matches_shape self -> grid_matches_shape (set_coord xy self).
Proof. intros H cell. exact (H cell). Qed.




(** A grid with fewer rows than the recorded shape: the grid lookup of a
    check raises IndexError. *)
Lemma short_grid_raises :
  let self :=
    mkController (mkLevel [] (mkAgent (1 / 2, 1 / 2) 0) []) (1, 1)%Z
      (1 / 5) (1 / 10) (1 / 2) (1 / 10) (1 / 20) in
  _handle_bounding_collision (0, 0)%Z self = (Raise IndexError, self).
Proof. reflexivity. Qed.






(** ** The heading after a run of steps *)

Lemma step_theta (wf tl tr action : Z) (self : Controller) :
  actions_distinct wf tl tr ->
  theta (agent (_level (snd (step wf tl tr action self)))) =
  theta (agent (_level self)) +
  (if (action =? tl)%Z then _turn self else 0) -
  (if (action =? tr)%Z then _turn self else 0).
Proof.
  intros (Hwl & Hwr & Hlr). unfold step.
  destruct (action =? wf)%Z eqn:E1.
  - apply Z.eqb_eq in E1. subst action.
    replace (wf =? tl)%Z with false by (symmetry; apply Z.eqb_neq; exact Hwl).
    replace (wf =? tr)%Z with false by (symmetry; apply Z.eqb_neq; exact Hwr).
    change (theta (agent (_level (snd (_walk (theta (agent (_level self)))
                                          (_stride self) self)))) =
            theta (agent (_level self)) + 0 - 0).
    rewrite _walk_unfold, resolve_and_collect_theta. cbn. lra.
  - destruct (action =? tl)%Z eqn:E2.
    + apply Z.eqb_eq in E2. subst action.
      replace (tl =? tr)%Z with false by (symmetry; apply Z.eqb_neq; exact Hlr).
      change (theta (agent (_level (snd (_walk
                (theta (agent (_level self)) + _turn self) (_stride_on_turn self)
                (set_theta (theta (agent (_level self)) + _turn self) self))))) =
              theta (agent (_level self)) + _turn self - 0).
      rewrite _walk_unfold, resolve_and_collect_theta. cbn. lra.
    + destruct (action =? tr)%Z eqn:E3.
      * change (theta (agent (_level (snd (_walk
                  (theta (agent (_level self)) - _turn self) (_stride_on_turn self)
                  (set_theta (theta (agent (_level self)) - _turn self) self))))) =
                theta (agent (_level self)) + 0 - _turn self).
        rewrite _walk_unfold, resolve_and_collect_theta. cbn. lra.
      * cbn. lra.
Qed.

(** X11.  After a run of steps that has completed, the heading is the
    starting heading plus [turn] times (number of TurnLeft actions minus
    number of TurnRight actions); walking forward and unknown action
    values do not count; and the configuration is what it was. *)
Theorem heading_after_steps
    (wf tl tr : Z) (actions : list Z) (self self' : Controller) :
  actions_distinct wf tl tr ->
  steps wf tl tr actions self = (Return tt, self') ->
  same_setting self self' /\
  theta (agent (_level self')) =
    theta (agent (_level self)) +
    (IZR (Z.of_nat (count_occ Z.eq_dec actions tl)) -
     IZR (Z.of_nat (count_occ Z.eq_dec actions tr))) * _turn self.
Proof.
  intros Hd. revert self.
  induction actions as [| a rest IH]; intros self Hrun.
  - cbn [steps] in Hrun. injection Hrun as <-.
    split; [apply same_setting_refl | cbn; lra].
  - cbn [steps] in Hrun. unfold bind in Hrun.
    pose proof (step_setting wf tl tr a self) as Hs.
    pose proof (step_theta wf tl tr a self Hd) as Ht.
    destruct (step wf tl tr a self) as [[b | e] s1]; [| discriminate].
    cbn [snd] in Hs, Ht.
    destruct (IH s1 Hrun) as [Hs' Ht'].
    split; [eapply same_setting_trans; eassumption |].
    rewrite Ht', Ht.
    assert (Hturn : _turn s1 = _turn self)
      by (destruct Hs as (_ & _ & _ & _ & -> & _); reflexivity).
    rewrite Hturn. cbn [count_occ].
    destruct Hd as (Hwl & Hwr & Hlr).
    destruct (Z.eq_dec a tl) as [E1 | Hn1]; destruct (Z.eq_dec a tr) as [E2 | Hn2];
      try congruence; try subst a;
      rewrite ?Z.eqb_refl;
      repeat match goal with
      | H : ?x <> ?y |- context [(?x =? ?y)%Z] =>
          replace (x =? y)%Z with false by (symmetry; apply Z.eqb_neq; exact H)
      end;
      rewrite ?Nat2Z.inj_succ, ?succ_IZR; lra.
Qed.

Lemma kind_same_setting self self' cell :
  same_setting self self' -> kind self' cell = kind self cell.
Proof. intros (Hg & Hs & _). unfold kind. rewrite Hg, Hs. reflexivity. Qed.

(** Without a solid cell no check has anything to do: every step
    returns. *)
Lemma step_returns_without_solid (wf tl tr action : Z) (self : Controller) :
  well_formed self -> no_solid_cell self -> 0 < _agent_radius self ->
  exists b self', step wf tl tr action self = (Return b, self').
Proof.
  intros Hw Hn Har.
  assert (Hwalk : forall t d s,
            well_formed s -> no_solid_cell s -> 0 < _agent_radius s ->
            exists b s', _walk t d s = (Return b, s')).
  { intros t d s Hws Hns Hars. rewrite _walk_unfold.
    unfold resolve_and_collect. run.
    rewrite _handle_collision_clear.
    - eauto.
    - exact Hars.
    - apply grid_matches_shape_set_coord, well_formed_matches_shape, Hws.
    - intros cell [Hk _]. exact (Hns cell Hk). }
  destruct (step_cases wf tl tr action self) as [-> | [-> | [-> | ->]]].
  - apply Hwalk; assumption.
  - apply Hwalk; [exact Hw | exact Hn | exact Har].
  - apply Hwalk; [exact Hw | exact Hn | exact Har].
  - eauto.
Qed.

Lemma steps_complete_without_solid (wf tl tr : Z) (actions : list Z) :
  forall self,
    well_formed self -> no_solid_cell self -> 0 < _agent_radius self ->
    exists self', steps wf tl tr actions self = (Return tt, self').
Proof.
  induction actions as [| a rest IH]; intros self Hw Hn Har.
  - exists self. reflexivity.
  - cbn [steps]. unfold bind.
    pose proof (step_setting wf tl tr a self) as Hs.
    destruct (step_returns_without_solid wf tl tr a self Hw Hn Har)
      as (b & s1 & E).
    rewrite E in *. cbn [snd] in Hs.
    apply IH.
    + eapply well_formed_same_setting; eassumption.
    + intros cell. rewrite (kind_same_setting _ _ cell Hs). apply Hn.
    + destruct Hs as (_ & _ & _ & _ & _ & -> & _). exact Har.
Qed.

Lemma meadow_no_solid_cell p : no_solid_cell (meadow p).
Proof.
  intros [cx cy] Hk.
  destruct (kind_solid_in_bounds _ _ Hk) as [Hx Hy]. cbn in Hx, Hy.
  assert (Hc : (cx = 0 \/ cx = 1)%Z /\ (cy = 0 \/ cy = 1)%Z) by lia.
  destruct Hc as [[-> | ->] [-> | ->]]; discriminate Hk.
Qed.

Lemma meadow_well_formed p : well_formed (meadow p).
Proof.
  apply __init___well_formed. intros row [<- | [<- | []]]; reflexivity.
Qed.

Lemma heading_after_steps_witness :
  exists self',
    steps 0 1 2 [1; 0; 1; 2; 7]%Z (meadow (1, 1)) = (Return tt, self') /\
    theta (agent (_level self')) = 0 + (2 - 1) * (1 / 2).
Proof.
  destruct (steps_complete_without_solid 0 1 2 [1; 0; 1; 2; 7]%Z (meadow (1, 1)))
    as [self' Hrun].
  - apply meadow_well_formed.
  - apply meadow_no_solid_cell.
  - change (_agent_radius (meadow (1, 1))) with (1 / 10). lra.
  - exists self'. split; [exact Hrun |].
    apply (heading_after_steps 0 1 2 [1; 0; 1; 2; 7]%Z (meadow (1, 1)) self').
    + repeat split; discriminate.
    + exact Hrun.
Defined.

(** ** What one face check achieves *)

Lemma face_push_cases cell ar p :
  (fst (face_push cell ar p) = fst p \/
   fst (face_push cell ar p) = IZR (fst cell) + 1 + ar \/
   fst (face_push cell ar p) = IZR (fst cell) - ar) /\
  (snd (face_push cell ar p) = snd p \/
   snd (face_push cell ar p) = IZR (snd cell) + 1 + ar \/
   snd (face_push cell ar p) = IZR (snd cell) - ar).
Proof.
  unfold face_push. cbv zeta. cbn [fst snd]. rewrite !plus_IZR. split.
  - destruct (_ && _); [| left; reflexivity].
    destruct (_ && _); [right; left; reflexivity |].
    destruct (_ && _); [right; right; reflexivity | left; reflexivity].
  - destruct (Rleb (IZR (fst cell)) (fst p) && _); [| left; reflexivity].
    destruct (_ && _); [right; left; reflexivity |].
    destruct (_ && _); [right; right; reflexivity | left; reflexivity].
Qed.

Lemma box_axis_pushed (lo x ar : R) :
  0 < ar -> x = lo + 1 + ar \/ x = lo - ar ->
  Rmax 0 (Rmax (lo - x) (x - (lo + 1))) = ar.
Proof.
  intros Har [-> | ->].
  - rewrite (Rmax_right (lo - _)) by lra. rewrite Rmax_right by lra. lra.
  - rewrite (Rmax_left (lo - _)) by lra. rewrite Rmax_right by lra. lra.
Qed.

(** A face check that moves the agent moves it clear of its cell. *)
Lemma face_push_moves_clear cell ar p :
  0 < ar -> changed p (face_push cell ar p) = true ->
  ar * ar <= box_dist2 cell (face_push cell ar p).
Proof.
  intros Har Hch. destruct (face_push_cases cell ar p) as [Fx Fy].
  unfold box_dist2. cbv zeta. rewrite !plus_IZR.
  pose proof (box_axis_nonneg (IZR (fst cell)) (fst (face_push cell ar p))) as Hx0.
  pose proof (box_axis_nonneg (IZR (snd cell)) (snd (face_push cell ar p))) as Hy0.
  unfold changed in Hch. apply orb_true_iff in Hch.
  destruct Hch as [Hc | Hc]; apply Rneqb_true in Hc.
  - destruct Fx as [Fx | Fx]; [congruence |].
    rewrite (box_axis_pushed _ _ ar Har Fx) in *. nra.
  - destruct Fy as [Fy | Fy]; [congruence |].
    rewrite (box_axis_pushed _ _ ar Har Fy) in *. nra.
Qed.

Lemma _handle_bounding_collision_clears (cell : Z * Z) (self self' : Controller) :
  0 < _agent_radius self ->
  _handle_bounding_collision cell self = (Return (PyBool true), self') ->
  ~ overlaps self' cell.
Proof.
  intros Har. rewrite _handle_bounding_collision_eq.
  destruct (kind self cell); cbv zeta; try discriminate.
  intros [= Hch <-] [_ Hov].
  cbn [set_coord set_agent _level agent coord _agent_radius] in Hov.
  pose proof (face_push_moves_clear _ _ _ Har Hch). lra.
Qed.



(** X13.  Each face check is idempotent: run again on the same cell right
    after itself, it reports nothing and moves nothing (radius positive). *)
Theorem face_check_idempotent (cell : Z * Z) (self self1 : Controller) (r1 : pyret) :
  0 < _agent_radius self ->
  _handle_bounding_collision cell self = (Return r1, self1) ->
  exists r2,
    _handle_bounding_collision cell self1 = (Return r2, self1) /\
    truthy r2 = false.
Proof.
  intros Har H1.
  destruct (truthy r1) eqn:Et.
  - destruct r1 as [| []]; try discriminate Et.
    pose proof (_handle_bounding_collision_clears _ _ _ Har H1) as Hclear.
    rewrite _handle_bounding_collision_eq in H1 |- *.
    destruct (kind self cell) eqn:Hk; cbv zeta in H1; try discriminate.
    injection H1 as Hch <-.
    change (kind (set_coord _ self) cell) with (kind self cell) in *.
    rewrite Hk. cbv zeta.
    assert (Hfar : _agent_radius self * _agent_radius self <=
                   box_dist2 cell (face_push cell (_agent_radius self)
                                     (coord (agent (_level self))))).
    { apply Rnot_lt_le. intros Hlt. apply Hclear. split; [exact Hk | exact Hlt]. }
    cbn [set_coord set_agent _level agent coord _agent_radius].
    rewrite (face_push_clear _ _ _ Har Hfar).
    eexists. split; [reflexivity |]. cbn [truthy]. apply changed_eta.
  - pose proof (_handle_bounding_collision_quiet _ _ _ _ H1 Et) as Heq.
    subst self1. exists r1. split; assumption.
Qed.

Lemma face_check_idempotent_witness :
  exists r2,
    _handle_bounding_collision (1, 1)%Z (board (9 / 10, 9 / 10))
      = (Return r2, board (9 / 10, 9 / 10)) /\
    truthy r2 = false.
Proof.
  apply (face_check_idempotent (1, 1)%Z (board (21 / 20, 13 / 10))
           (board (9 / 10, 9 / 10)) (PyBool true)).
  - cbn. lra.
  - rewrite _handle_bounding_collision_eq.
    change (kind (board (21 / 20, 13 / 10)) (1, 1)%Z) with Solid. cbv beta iota zeta.
    change (coord (agent (_level (board (21 / 20, 13 / 10))))) with (21 / 20, 13 / 10).
    change (_agent_radius (board (21 / 20, 13 / 10))) with (1 / 10).
    replace (face_push (1, 1)%Z (1 / 10) (21 / 20, 13 / 10)) with (9 / 10, 9 / 10)
      by (symmetry; eval_push; f_equal; lra).
    f_equal. f_equal. eval_push. reflexivity.
Defined.

(** ** What one corner check achieves *)










(** * Properties of the learner *)

Module LearnerFacts.
Import Learner.

(** The loop of [_discount] over the reversed rewards, in one equation. *)
Lemma discount_loop gamma rewards :
  fold_left
    (fun (acc : R * list R) (reward : R) =>
       (gamma * fst acc + reward, snd acc ++ [gamma * fst acc + reward]))
    (rev rewards) (0, [])
  = (discounted_return gamma rewards, rev (returns_from gamma rewards)).
Proof.
  induction rewards as [| r rest IH]; [reflexivity |].
  cbn [rev]. rewrite fold_left_app, IH. cbn [fold_left fst snd].
  cbn [returns_from rev discounted_return].
  replace (gamma * discounted_return gamma rest + r)
    with (r + gamma * discounted_return gamma rest) by lra.
  reflexivity.
Qed.

Lemma returns_from_length gamma rewards :
  length (returns_from gamma rewards) = length rewards.
Proof. induction rewards; cbn; congruence. Qed.

Lemma returns_from_head gamma rewards :
  hd 0 (returns_from gamma rewards) = discounted_return gamma rewards.
Proof. destruct rewards; reflexivity. Qed.

(** X17.  [_discount] turns the rewards of an episode into the discounted
    returns: as many values as rewards, the value at each position being
    that reward plus gamma times the value at the next position (the last
    one is the last reward), which is the sum
    r_i + gamma r_(i+1) + gamma^2 r_(i+2) + ... *)
Theorem discount_gives_returns (self : Learner) (rewards : list R) :
  _discount self rewards = returns_from (_gamma self) rewards /\
  length (_discount self rewards) = length rewards /\
  match rewards with
  | [] => _discount self rewards = []
  | r :: rest =>
      _discount self rewards =
      (r + _gamma self * hd 0 (_discount self rest)) :: _discount self rest
  end.
Proof.
  assert (H : forall rs, _discount self rs = returns_from (_gamma self) rs).
  { intros rs. unfold _discount. cbv zeta.
    change (fold_left _ (rev rs) (0, []))
      with (fold_left
              (fun (acc : R * list R) (reward : R) =>
                 (_gamma self * fst acc + reward,
                  snd acc ++ [_gamma self * fst acc + reward]))
              (rev rs) (0, [])).
    rewrite discount_loop. apply rev_involutive. }
  split; [apply H |]. split; [rewrite H; apply returns_from_length |].
  destruct rewards as [| r rest]; rewrite !H; [reflexivity |].
  cbn [returns_from discounted_return]. rewrite returns_from_head. reflexivity.
Qed.

Lemma epsilon_value (self : Learner) :
  _e_end self <= _e_start self ->
  _e_start_t self < _e_end_t self ->
  _epsilon self =
  inl (Rmax (Rmin (_e_start self +
                   (IZR (_step self) - _e_start_t self)
                   / (_e_end_t self - _e_start_t self)
                   * (_e_end self - _e_start self))
                  (_e_start self))
            (_e_end self)).
Proof.
  intros He Ht. unfold _epsilon. cbv zeta.
  replace (Rleb (_e_end self) (_e_start self)) with true
    by (symmetry; apply Rleb_true; exact He).
  replace (Rleb (_e_start_t self) (_e_end_t self)) with true
    by (symmetry; apply Rleb_true; lra).
  replace (Rneqb (_e_end_t self - _e_start_t self) 0) with true
    by (symmetry; apply Rneqb_true; lra).
  reflexivity.
Qed.

(** X18.  With [e_start >= e_end] and [e_start_t < e_end_t], [_epsilon]
    returns a value between [e_end] and [e_start]: [e_start] up to step
    [e_start_t], [e_end] from step [e_end_t] on, and in between the linear
    interpolation of the two. *)
Theorem epsilon_anneals (self : Learner) :
  _e_end self <= _e_start self ->
  _e_start_t self < _e_end_t self ->
  exists e,
    _epsilon self = inl e /\
    _e_end self <= e <= _e_start self /\
    (IZR (_step self) <= _e_start_t self -> e = _e_start self) /\
    (_e_end_t self <= IZR (_step self) -> e = _e_end self) /\
    (_e_start_t self <= IZR (_step self) <= _e_end_t self ->
     e = _e_start self +
         (IZR (_step self) - _e_start_t self)
         / (_e_end_t self - _e_start_t self)
         * (_e_end self - _e_start self)).
Proof.
  intros He Ht. rewrite (epsilon_value self He Ht). eexists. split; [reflexivity |].
  set (es := _e_start self) in *. set (ee := _e_end self) in *.
  set (st := _e_start_t self) in *. set (et := _e_end_t self) in *.
  set (n := IZR (_step self)).
  set (t := (n - st) / (et - st)).
  assert (HtD : t * (et - st) = n - st) by (unfold t; field; lra).
  split; [| split; [| split]].
  - split; [apply Rmax_r |].
    apply Rmax_lub; [apply Rmin_r | exact He].
  - intros Hn. assert (t <= 0) by nra.
    rewrite Rmin_right by nra. apply Rmax_left. exact He.
  - intros Hn. assert (1 <= t) by nra.
    rewrite Rmin_left by nra. apply Rmax_right. nra.
  - intros [Hn1 Hn2]. assert (0 <= t <= 1) by nra.
    rewrite Rmin_left by nra. apply Rmax_left. nra.
Qed.

Lemma epsilon_anneals_witness :
  exists e,
    _epsilon (mkLearner (9 / 10) 1 (1 / 10) 0 100 50) = inl e /\
    1 / 10 <= e <= 1.
Proof.
  destruct (epsilon_anneals (mkLearner (9 / 10) 1 (1 / 10) 0 100 50))
    as (e & H1 & H2 & _).
  - cbn [_e_start _e_end]. lra.
  - cbn [_e_start_t _e_end_t]. lra.
  - exists e. split; [exact H1 | exact H2].
Defined.

(** X19.  [_epsilon] fails in three ways: on [e_start < e_end] and on
    [e_start_t > e_end_t] an assertion fails, and on
    [e_start_t = e_end_t], which both assertions let through, the
    annealing divides by zero. *)
Theorem epsilon_failures (self : Learner) :
  (_e_start self < _e_end self -> _epsilon self = inr AssertionError) /\
  (_e_end self <= _e_start self -> _e_end_t self < _e_start_t self ->
   _epsilon self = inr AssertionError) /\
  (_e_end self <= _e_start self -> _e_start_t self = _e_end_t self ->
   _epsilon self = inr ZeroDivisionError).
Proof.
  unfold _epsilon. cbv zeta. split; [| split].
  - intros H.
    replace (Rleb (_e_end self) (_e_start self)) with false
      by (symmetry; apply Rleb_false; exact H).
    reflexivity.
  - intros H1 H2.
    replace (Rleb (_e_end self) (_e_start self)) with true
      by (symmetry; apply Rleb_true; exact H1).
    replace (Rleb (_e_start_t self) (_e_end_t self)) with false
      by (symmetry; apply Rleb_false; exact H2).
    reflexivity.
  - intros H1 H2.
    replace (Rleb (_e_end self) (_e_start self)) with true
      by (symmetry; apply Rleb_true; exact H1).
    replace (Rleb (_e_start_t self) (_e_end_t self)) with true
      by (symmetry; apply Rleb_true; lra).
    replace (Rneqb (_e_end_t self - _e_start_t self) 0) with false
      by (symmetry; apply Rneqb_false; lra).
    reflexivity.
Qed.

Lemma epsilon_failures_witness :
  _epsilon (mkLearner (9 / 10) (1 / 10) 1 0 100 50) = inr AssertionError /\
  _epsilon (mkLearner (9 / 10) 1 (1 / 10) 100 0 50) = inr AssertionError /\
  _epsilon (mkLearner (9 / 10) 1 (1 / 10) 100 100 50) = inr ZeroDivisionError.
Proof.
  split; [| split].
  - apply (proj1 (epsilon_failures (mkLearner (9 / 10) (1 / 10) 1 0 100 50))).
    cbn [_e_start _e_end]. lra.
  - apply (proj1 (proj2 (epsilon_failures (mkLearner (9 / 10) 1 (1 / 10) 100 0 50))));
      cbn [_e_start _e_end _e_start_t _e_end_t]; lra.
  - apply (proj2 (proj2 (epsilon_failures (mkLearner (9 / 10) 1 (1 / 10) 100 100 50))));
      cbn [_e_start _e_end _e_start_t _e_end_t]; lra.
Defined.

(** X20.  Exploration never grows back: with [e_start >= e_end] and
    [e_start_t < e_end_t], the value of [_epsilon] at a later step is at
    most its value at an earlier step. *)
Theorem epsilon_never_increases (self : Learner) (n m : Z) :
  _e_end self <= _e_start self ->
  _e_start_t self < _e_end_t self ->
  (n <= m)%Z ->
  exists e1 e2,
    _epsilon (at_step self n) = inl e1 /\
    _epsilon (at_step self m) = inl e2 /\
    e2 <= e1.
Proof.
  intros He Ht Hnm.
  rewrite (epsilon_value (at_step self n) He Ht).
  rewrite (epsilon_value (at_step self m) He Ht).
  eexists _, _. split; [reflexivity |]. split; [reflexivity |].
  cbn [at_step _e_start _e_end _e_start_t _e_end_t _step].
  apply IZR_le in Hnm.
  set (es := _e_start self) in *. set (ee := _e_end self) in *.
  set (st := _e_start_t self) in *. set (et := _e_end_t self) in *.
  set (t1 := (IZR n - st) / (et - st)).
  set (t2 := (IZR m - st) / (et - st)).
  assert (H1 : t1 * (et - st) = IZR n - st) by (unfold t1; field; lra).
  assert (H2 : t2 * (et - st) = IZR m - st) by (unfold t2; field; lra).
  assert (Ht12 : t1 <= t2) by nra.
  apply Rle_max_compat_r, Rle_min_compat_r. nra.
Qed.

Lemma epsilon_never_increases_witness :
  exists e1 e2,
    _epsilon (at_step (mkLearner (9 / 10) 1 (1 / 10) 0 100 0) 10) = inl e1 /\
    _epsilon (at_step (mkLearner (9 / 10) 1 (1 / 10) 0 100 0) 60) = inl e2 /\
    e2 <= e1.
Proof.
  apply (epsilon_never_increases (mkLearner (9 / 10) 1 (1 / 10) 0 100 0) 10 60).
  - cbn [_e_start _e_end]. lra.
  - cbn [_e_start_t _e_end_t]. lra.
  - lia.
Defined.

End LearnerFacts.

(** * Properties of the drawing geometry *)

Module DrawFacts.
Import Draw.







(** X22.  A grid shape with a zero entry makes [normalize] raise
    ZeroDivisionError, whatever the point; [coin_positions] then raises
    for every list with a coin in it, and still returns the empty list
    for no coins. *)
Theorem zero_shape_fails_on_first_coin (self : Draw) :
  fst (_grid_shape self) = 0%Z \/ snd (_grid_shape self) = 0%Z ->
  (forall coord, normalize self coord = Raise ZeroDivisionError) /\
  (forall coin rest, coin_positions self (coin :: rest) = Raise ZeroDivisionError) /\
  coin_positions self [] = Return [].
Proof.
  intros Hz.
  assert (Hn : forall coord, normalize self coord = Raise ZeroDivisionError).
  { intros coord. unfold normalize. cbv zeta.
    destruct (Rneqb (IZR (fst (_grid_shape self)) / 2) 0) eqn:E1; [| reflexivity].
    destruct (Rneqb (IZR (snd (_grid_shape self)) / 2) 0) eqn:E2; [| reflexivity].
    exfalso. apply Rneqb_true in E1, E2.
    destruct Hz as [Hz | Hz]; rewrite Hz in *; lra. }
  split; [exact Hn |]. split; [| reflexivity].
  intros coin rest. unfold coin_positions. cbv zeta.
  cbn [coin_positions_loop]. rewrite Hn. reflexivity.
Qed.

Lemma zero_shape_fails_on_first_coin_witness :
  coin_positions (mkDraw (0, 2)%Z (1 / 20) (9 / 100)) [(1, 1)]
    = Raise ZeroDivisionError.
Proof.
  apply (zero_shape_fails_on_first_coin (mkDraw (0, 2)%Z (1 / 20) (9 / 100))).
  left. reflexivity.
Defined.



End DrawFacts.

(** * Properties of the controller on binary64 floats *)

Module Binary64Facts.
Import PrimFloat FloatOps SpecFloat.
Import Binary64.

Lemma float_collect_loop_scan t2 ax ay cs i :
  collect_loop t2 ax ay cs i =
  firstn i cs ++ scan t2 ax ay false (skipn i cs).
Proof.
  funelim (collect_loop t2 ax ay cs i);
    try rename coins0 into coins.
  - destruct (firstn_skipn_past coins i l) as [-> ->].
    cbn. rewrite app_nil_r. reflexivity.
  - rewrite H. clear H Heqcall.
    destruct (split_at_index coins i (PrimFloat.zero, PrimFloat.zero) Hi) as [Hs Hl].
    set (pre := firstn i coins) in *. set (post := skipn (S i) coins) in *.
    set (c := nth i coins (PrimFloat.zero, PrimFloat.zero)) in *.
    assert (Hd : list_del coins i = pre ++ post) by reflexivity.
    assert (Hsk : skipn i coins = c :: post).
    { rewrite Hs at 1. rewrite skipn_app, Hl, Nat.sub_diag.
      rewrite (skipn_all2 pre) by lia. reflexivity. }
    rewrite Hd, Hsk. cbn [scan]. unfold near. rewrite Heq.
    replace (S i) with (length pre + 1)%nat by lia.
    rewrite firstn_app_2, skipn_app, Nat.add_comm, Nat.add_sub.
    rewrite (skipn_all2 pre) by lia. rewrite <- app_assoc. f_equal.
    destruct post; reflexivity.
  - rewrite H. clear H Heqcall.
    destruct (split_at_index coins i (PrimFloat.zero, PrimFloat.zero) Hi) as [Hs Hl].
    set (pre := firstn i coins) in *. set (post := skipn (S i) coins) in *.
    set (c := nth i coins (PrimFloat.zero, PrimFloat.zero)) in *.
    assert (Hsk : skipn i coins = c :: post).
    { rewrite Hs at 1. rewrite skipn_app, Hl, Nat.sub_diag.
      rewrite (skipn_all2 pre) by lia. reflexivity. }
    rewrite Hsk. cbn [scan]. unfold near. rewrite Heq.
    assert (Hf : firstn (S i) coins = pre ++ [c]).
    { rewrite Hs at 1. replace (S i) with (length pre + 1)%nat by lia.
      rewrite firstn_app_2. reflexivity. }
    rewrite Hf, <- app_assoc. reflexivity.
Qed.

Lemma float_collect_coins_scan coins coin_radius agent_x agent_y agent_radius :
  _collect_coins coins coin_radius agent_x agent_y agent_radius =
  scan (PrimFloat.mul (PrimFloat.add agent_radius coin_radius)
                      (PrimFloat.add agent_radius coin_radius))
       agent_x agent_y false coins.
Proof. unfold _collect_coins. rewrite float_collect_loop_scan. reflexivity. Qed.

Lemma float_scan_keeps t2 ax ay coin coins passed_over :
  near t2 ax ay coin = false -> In coin coins ->
  In coin (scan t2 ax ay passed_over coins).
Proof.
  intros Hn. revert passed_over.
  induction coins as [| c rest IH]; intros po Hin; [contradiction |].
  cbn [scan]. destruct Hin as [-> | Hin].
  - destruct po; [left; reflexivity |]. rewrite Hn. left; reflexivity.
  - destruct po; [right; auto |].
    destruct (near t2 ax ay c); [auto | right; auto].
Qed.

Lemma float_scan_filter_kept (p : float * float -> bool) t2 ax ay coins passed_over :
  (forall c, p c = true -> near t2 ax ay c = false) ->
  filter p (scan t2 ax ay passed_over coins) = filter p coins.
Proof.
  intros Hp. revert passed_over.
  induction coins as [| c rest IH]; intros po; [reflexivity |].
  cbn [scan]. destruct po.
  - cbn [filter]. rewrite IH. reflexivity.
  - destruct (near t2 ax ay c) eqn:E.
    + cbn [filter]. destruct (p c) eqn:Ep.
      * rewrite (Hp c Ep) in E. discriminate.
      * apply IH.
    + cbn [filter]. rewrite IH. reflexivity.
Qed.

(** Replace [Prim2SF] of a closed float by its value. *)
Ltac eval_real_of :=
  unfold real_of;
  repeat match goal with
  | |- context [Prim2SF ?f] =>
      let v := eval vm_compute in (Prim2SF f) in
      change (Prim2SF f) with v
  end;
  cbv beta iota;
  repeat match goal with
  | |- context [(0 <=? ?e)%Z] =>
      let v := eval vm_compute in (0 <=? e)%Z in
      change (0 <=? e)%Z with v
  end;
  cbv beta iota;
  repeat match goal with
  | |- context [IZR (?a ^ ?b)] =>
      let v := eval vm_compute in (a ^ b)%Z in
      change (a ^ b)%Z with v
  | |- context [IZR (?a * ?b)] =>
      let v := eval vm_compute in (a * b)%Z in
      change (a * b)%Z with v
  end.

(** C5, refuted as stated.  Agent at (0, 0) with radius 201459213 / 2^32,
    coin radius 2^-6, one coin at (268433915 / 2^32, 8487948 / 2^32): all
    exact binary64 values.  The coin's distance to the agent is exactly
    the sum of the radii (268433915^2 + 8487948^2 = 268568077^2).  In
    binary64 the squared distance rounds to a value below the squared
    threshold, and [_collect_coins] removes the coin. *)
Lemma coin_at_exact_threshold_collected :
  let agent_radius := of_ratio 201459213 4294967296 in
  let coin_radius := of_ratio 67108864 4294967296 in
  let coin := (of_ratio 268433915 4294967296, of_ratio 8487948 4294967296) in
  let agent_x := PrimFloat.zero in
  let agent_y := PrimFloat.zero in
  (real_of agent_radius = 201459213 / 4294967296 /\
   real_of coin_radius = 67108864 / 4294967296 /\
   real_of (fst coin) = 268433915 / 4294967296 /\
   real_of (snd coin) = 8487948 / 4294967296 /\
   real_of agent_x = 0 /\ real_of agent_y = 0) /\
  R_sqrt.sqrt ((real_of (fst coin) - real_of agent_x) * (real_of (fst coin) - real_of agent_x) +
        (real_of (snd coin) - real_of agent_y) * (real_of (snd coin) - real_of agent_y))
    = real_of agent_radius + real_of coin_radius /\
  PrimFloat.ltb (coin_dist2 agent_x agent_y coin)
    (PrimFloat.mul (PrimFloat.add agent_radius coin_radius)
                   (PrimFloat.add agent_radius coin_radius)) = true /\
  _collect_coins [coin] coin_radius agent_x agent_y agent_radius = [].
Proof.
  cbv zeta. cbn [fst snd].
  assert (Har : real_of (of_ratio 201459213 4294967296) = 201459213 / 4294967296)
    by (eval_real_of; lra).
  assert (Hcr : real_of (of_ratio 67108864 4294967296) = 67108864 / 4294967296)
    by (eval_real_of; lra).
  assert (Hcx : real_of (of_ratio 268433915 4294967296) = 268433915 / 4294967296)
    by (eval_real_of; lra).
  assert (Hcy : real_of (of_ratio 8487948 4294967296) = 8487948 / 4294967296)
    by (eval_real_of; lra).
  assert (H0 : real_of PrimFloat.zero = 0) by (eval_real_of; reflexivity).
  split; [repeat split; assumption |].
  split; [| split].
  - rewrite Har, Hcr, Hcx, Hcy, H0. apply sqrt_lem_1; lra.
  - vm_compute. reflexivity.
  - rewrite float_collect_coins_scan. vm_compute. reflexivity.
Qed.

(** C5 (as amended).  The test of [_collect_coins] is the strict [<]
    between the squared distance and the squared threshold as binary64
    computes them.  A coin whose computed squared distance is not below
    the computed squared threshold, equal to it in particular, is not
    removed: such coins are all in the list afterwards, as many and in
    the order they were. *)
Theorem coin_not_below_threshold_stays
    (coins : list (float * float))
    (coin_radius agent_x agent_y agent_radius : float) (coin : float * float) :
  let threshold := PrimFloat.add agent_radius coin_radius in
  let threshold2 := PrimFloat.mul threshold threshold in
  let stays c := negb (PrimFloat.ltb (coin_dist2 agent_x agent_y c) threshold2) in
  In coin coins ->
  PrimFloat.ltb (coin_dist2 agent_x agent_y coin) threshold2 = false ->
  In coin (_collect_coins coins coin_radius agent_x agent_y agent_radius) /\
  filter stays (_collect_coins coins coin_radius agent_x agent_y agent_radius)
    = filter stays coins.
Proof.
  cbv zeta. intros Hin Hd. rewrite float_collect_coins_scan. split.
  - apply float_scan_keeps; [exact Hd | exact Hin].
  - apply float_scan_filter_kept. intros c Hc. apply negb_true_iff in Hc. exact Hc.
Qed.

(** At the computed threshold: radii 0.1 and 0.05 (the floats nearest to
    1/10 and 1/20), the agent at (0, 0) and the coin at (0.1 + 0.05, 0)
    as binary64 adds them. *)
Lemma coin_not_below_threshold_stays_witness :
  let agent_radius := of_ratio 1 10 in
  let coin_radius := of_ratio 1 20 in
  let coin := (PrimFloat.add agent_radius coin_radius, PrimFloat.zero) in
  PrimFloat.eqb (coin_dist2 PrimFloat.zero PrimFloat.zero coin)
    (PrimFloat.mul (PrimFloat.add agent_radius coin_radius)
                   (PrimFloat.add agent_radius coin_radius)) = true /\
  In coin (_collect_coins [coin] coin_radius PrimFloat.zero PrimFloat.zero
             agent_radius).
Proof.
  cbv zeta. split; [vm_compute; reflexivity |].
  apply (coin_not_below_threshold_stays
           [(PrimFloat.add (of_ratio 1 10) (of_ratio 1 20), PrimFloat.zero)]
           (of_ratio 1 20) PrimFloat.zero PrimFloat.zero (of_ratio 1 10)
           (PrimFloat.add (of_ratio 1 10) (of_ratio 1 20), PrimFloat.zero)).
  - left. reflexivity.
  - vm_compute. reflexivity.
Defined.

(** ** The corner check on binary64 floats *)

Lemma finite_cases f :
  finite f = true ->
  (exists s, Prim2SF f = S754_zero s) \/
  (exists s m e, Prim2SF f = S754_finite s m e).
Proof.
  unfold finite. destruct (Prim2SF f) as [s | s | | s m e]; try discriminate; eauto.
Qed.

Lemma SFcompare_finite_eq s1 m1 e1 s2 m2 e2 :
  SFcompare (S754_finite s1 m1 e1) (S754_finite s2 m2 e2) = Some Eq ->
  s1 = s2 /\ m1 = m2 /\ e1 = e2.
Proof.
  cbn [SFcompare]. intros H. injection H as H.
  destruct s1, s2; try discriminate H.
  - destruct (Z.compare e1 e2) eqn:He; try discriminate H.
    apply Z.compare_eq in He.
    destruct (Pos.compare_cont Eq m1 m2) eqn:Hm; try discriminate H.
    apply Pos.compare_eq in Hm. auto.
  - destruct (Z.compare e1 e2) eqn:He; try discriminate H.
    apply Z.compare_eq in He. apply Pos.compare_eq in H. auto.
Qed.

Lemma SFsub_diag s m e :
  SFsub prec emax (S754_finite s m e) (S754_finite s m e) = S754_zero false.
Proof. cbn [SFsub]. rewrite Z.sub_diag. reflexivity. Qed.

Lemma is_zero_cases f s :
  Prim2SF f = S754_zero s -> f = PrimFloat.zero \/ f = PrimFloat.neg_zero.
Proof.
  intros H. rewrite <- (FloatAxioms.SF2Prim_Prim2SF f), H.
  destruct s; [right | left]; reflexivity.
Qed.

(** [a - b] for a number [a] and [a == b]: a zero. *)
Lemma sub_of_equals a b :
  finite a = true -> PrimFloat.eqb a b = true ->
  PrimFloat.sub a b = PrimFloat.zero \/ PrimFloat.sub a b = PrimFloat.neg_zero.
Proof.
  intros Hf He. rewrite FloatAxioms.eqb_spec in He. unfold SFeqb in He.
  assert (Hz : exists s, Prim2SF (PrimFloat.sub a b) = S754_zero s).
  { rewrite FloatAxioms.sub_spec. unfold FloatAxioms.SF64sub.
    destruct (finite_cases a Hf) as [[s Ha] | (s & m & e & Ha)]; rewrite Ha in *.
    - destruct (Prim2SF b) as [s' | s' | | s' m' e']; cbn in He;
        try discriminate He; try (destruct s'; discriminate He).
      destruct s, s'; cbn; eauto.
    - destruct (Prim2SF b) as [s' | s' | | s' m' e'];
        try (cbn in He; destruct s; discriminate He);
        try (cbn in He; destruct s'; discriminate He);
        try (cbn in He; discriminate He).
      destruct (SFcompare (S754_finite s m e) (S754_finite s' m' e')) as [[ | | ] |] eqn:Hc;
        try discriminate He.
      apply SFcompare_finite_eq in Hc. destruct Hc as (<- & <- & <-).
      rewrite SFsub_diag. eauto. }
  destruct Hz as [s Hz]. exact (is_zero_cases _ _ Hz).
Qed.

(** [a == a] for a number [a]. *)
Lemma eqb_refl_finite a : finite a = true -> PrimFloat.eqb a a = true.
Proof.
  intros Hf. rewrite FloatAxioms.eqb_spec. unfold SFeqb.
  destruct (finite_cases a Hf) as [[s Ha] | (s & m & e & Ha)]; rewrite Ha.
  - reflexivity.
  - cbn [SFcompare]. destruct s; rewrite Z.compare_refl, Pos.compare_cont_refl;
      reflexivity.
Qed.

Lemma float_set_coord_eta self : set_coord (fst (coord self), snd (coord self)) self = self.
Proof. destruct self as [g [x y] sh ar]. reflexivity. Qed.

(** C3 (as amended).  The corner check has no guard.  Called for a solid
    cell with the agent's centre exactly on the cell's nearest corner, it
    finds the squared distance 0.0 and its test [dist2 < ar2] is
    [0.0 < ar2]: when that holds it raises ZeroDivisionError, and otherwise
    (a radius whose square is not above 0.0) it finds no collision and
    returns [False]; either way the position stays as it was. *)
Theorem corner_check_zero_distance (self : Controller) (cell : Z * Z) :
  let ax := fst (coord self) in
  let ay := snd (coord self) in
  let ar2 := PrimFloat.mul (_agent_radius self) (_agent_radius self) in
  cell_kind_of (_grid_shape self) (grid self) cell = Solid ->
  finite ax = true -> finite ay = true ->
  PrimFloat.eqb ax (of_int (fst (nearest_corner cell (coord self)))) = true ->
  PrimFloat.eqb ay (of_int (snd (nearest_corner cell (coord self)))) = true ->
  (PrimFloat.ltb PrimFloat.zero ar2 = true ->
   _handle_corner_collision cell self = (Raise ZeroDivisionError, self)) /\
  (PrimFloat.ltb PrimFloat.zero ar2 = false ->
   _handle_corner_collision cell self = (Return (PyBool false), self)).
Proof.
  cbv zeta. intros Hk Hfx Hfy Hx Hy.
  pose proof (sub_of_equals _ _ Hfx Hx) as Hvx.
  pose proof (sub_of_equals _ _ Hfy Hy) as Hvy.
  unfold nearest_corner in Hvx, Hvy. cbn [fst snd] in Hvx, Hvy.
  unfold cell_kind_of in Hk. unfold _handle_corner_collision, grid_at. cbv zeta.
  destruct (out_of_bounds (_grid_shape self) (fst cell) (snd cell)); [discriminate |].
  destruct (py_index (grid self) (fst (_grid_shape self) - snd cell - 1))
    as [row |]; [| discriminate].
  destruct (py_index row (fst cell)) as [v |]; [| discriminate].
  destruct (v =? 0)%Z; [discriminate |].
  set (vx := PrimFloat.sub (fst (coord self)) _) in *.
  set (vy := PrimFloat.sub (snd (coord self)) _) in *.
  assert (Hd : PrimFloat.add (PrimFloat.mul vx vx) (PrimFloat.mul vy vy)
               = PrimFloat.zero).
  { destruct Hvx as [-> | ->], Hvy as [-> | ->]; reflexivity. }
  rewrite Hd. split; intros Har; rewrite Har.
  - reflexivity.
  - unfold neqb. rewrite (eqb_refl_finite _ Hfx), (eqb_refl_finite _ Hfy).
    rewrite float_set_coord_eta. reflexivity.
Qed.

(** The radius of [staircase] is below 1. *)
Lemma staircase_radius p :
  0 < real_of (_agent_radius (staircase p)) < 1.
Proof.
  change (_agent_radius (staircase p))
    with (of_ratio 9007199254740991 9007199254740992).
  eval_real_of. lra.
Qed.

Lemma corner_check_zero_distance_witness :
  _handle_corner_collision (1, 1)%Z (staircase (of_int 1, of_int 1))
    = (Raise ZeroDivisionError, staircase (of_int 1, of_int 1)).
Proof.
  apply (corner_check_zero_distance (staircase (of_int 1, of_int 1)) (1, 1)%Z).
  - reflexivity.
  - vm_compute. reflexivity.
  - vm_compute. reflexivity.
  - vm_compute. reflexivity.
  - vm_compute. reflexivity.
  - vm_compute. reflexivity.
Defined.

(** C3, refuted as stated.  A run of [_handle_collision] on the
    staircase grid, radius 1 - 2^-53, from (2.2, 2.2): the face check of
    cell (2,2) assigns 2 - (1 - 2^-53) to both coordinates, which rounds
    to 1.0, so the face pass leaves the agent exactly on the corner (1,1)
    of the solid candidate cell (1,1), the corner of it nearest to the
    agent.  The corner check of that cell does not skip: it divides 0.0
    by 0.0, and the run ends in ZeroDivisionError. *)
Lemma corner_check_divides_by_zero :
  let start := (of_ratio 11 5, of_ratio 11 5) in
  let corner := (of_int 1, of_int 1) in
  0 < real_of (_agent_radius (staircase start)) < 1 /\
  for_cells _handle_bounding_collision [(1, 1); (1, 2); (2, 2); (2, 1)]%Z false
    (staircase start) = (Return true, staircase corner) /\
  cell_kind_of (_grid_shape (staircase corner)) (grid (staircase corner)) (1, 1)%Z
    = Solid /\
  nearest_corner (1, 1)%Z corner = (1, 1)%Z /\
  _handle_corner_collision (1, 1)%Z (staircase corner)
    = (Raise ZeroDivisionError, staircase corner) /\
  _handle_collision (staircase start)
    = (Raise ZeroDivisionError, staircase corner).
Proof.
  cbv zeta. split; [apply staircase_radius |].
  repeat split; vm_compute; reflexivity.
Qed.

End Binary64Facts.
